(** * Oupdate: the call monitor of [src/index.js]

    A shallow embedding of the helper functions, the poller with its
    deduplication set, the audio pipeline and the login loop of
    [src/index.js], with the properties that hold of them.

    JavaScript strings are modelled as lists of 8-bit characters, read as
    the code units U+0000..U+00FF.  On that range [trim], [\s], [\d],
    [length], [substring], [split] and [join] are exactly the ECMAScript
    ones.  The functions under test use [toUpperCase] only to compare its
    result with an upper-case ASCII word; the model maps a..z and the
    Latin-1 letters whose upper-case form is in range, and leaves the three
    characters alone whose upper-case form is not (sharp s, micro sign and
    y with diaeresis), which changes no such comparison.

    The outside world (the dashboard, the browser, the file system, the
    messaging service) answers through explicit records of outcomes, and the
    code that talks to it returns the effects it performed. *)

From Stdlib Require Import Ascii String.
From stdpp Require Import base list strings gmap sets pretty.
From Stdlib Require Import Lia.

Abbreviation jsstring := (list ascii).

(** String literals, as code units. *)
Definition str (s : string) : jsstring := String.list_ascii_of_string s.

(** ** Characters *)

Module Char.

Definition code (c : ascii) : nat := nat_of_ascii c.

(** ECMAScript WhiteSpace and LineTerminator below U+0100: TAB, LF, VT, FF,
    CR, SP and NBSP.  This is the class of [String.prototype.trim] and of
    the regular expression escape [\s]. *)
Definition is_space (c : ascii) : bool :=
  let n := code c in
  (n =? 9) || (n =? 10) || (n =? 11) || (n =? 12) || (n =? 13)
  || (n =? 32) || (n =? 160).

(** The regular expression escape [\d]: 0..9 only. *)
Definition is_digit (c : ascii) : bool :=
  let n := code c in (48 <=? n) && (n <=? 57).

(** The quote class of the play pattern: the single and the double quote. *)
Definition is_quote (c : ascii) : bool :=
  let n := code c in (n =? 39) || (n =? 34).

Definition upper (c : ascii) : ascii :=
  let n := code c in
  if (97 <=? n) && (n <=? 122) then ascii_of_nat (n - 32)
  else if (224 <=? n) && (n <=? 254) && negb (n =? 247)
       then ascii_of_nat (n - 32)
  else c.

Definition lower (c : ascii) : ascii :=
  let n := code c in
  if (65 <=? n) && (n <=? 90) then ascii_of_nat (n + 32)
  else if (192 <=? n) && (n <=? 222) && negb (n =? 215)
       then ascii_of_nat (n + 32)
  else c.

End Char.

(** ** Strings *)

Module Str.

Definition toUpperCase (s : jsstring) : jsstring := map Char.upper s.
Definition toLowerCase (s : jsstring) : jsstring := map Char.lower s.

Fixpoint trimStart (s : jsstring) : jsstring :=
  match s with
  | [] => []
  | c :: s' => if Char.is_space c then trimStart s' else s
  end.

Fixpoint trimEnd (s : jsstring) : jsstring :=
  match s with
  | [] => []
  | c :: s' =>
      match trimEnd s' with
      | [] => if Char.is_space c then [] else [c]
      | r => c :: r
      end
  end.

(** [String.prototype.trim] *)
Definition trim (s : jsstring) : jsstring := trimEnd (trimStart s).

(** [s.substring(i, j)] for [0 <= i <= j]. *)
Definition substring (i j : nat) (s : jsstring) : jsstring :=
  take (j - i) (drop i s).

(** [s.substring(i)] for [0 <= i]. *)
Definition substring_from (i : nat) (s : jsstring) : jsstring := drop i s.

(** The pieces of [s] between the characters of the class [stop], empty
    pieces included; there is always at least one piece. *)
Fixpoint pieces (stop : ascii → bool) (s : jsstring) : list jsstring :=
  match s with
  | [] => [[]]
  | c :: s' =>
      if stop c then [] :: pieces stop s'
      else match pieces stop s' with
           | p :: ps => (c :: p) :: ps
           | [] => [[c]]
           end
  end.

(** [s.split(sep)] for a one-character separator. *)
Definition split (sep : ascii) (s : jsstring) : list jsstring :=
  pieces (fun c => bool_decide (c = sep)) s.

(** [parts.join(sep)] *)
Fixpoint join (sep : jsstring) (parts : list jsstring) : jsstring :=
  match parts with
  | [] => []
  | [p] => p
  | p :: ps => p ++ sep ++ join sep ps
  end.

Fixpoint startsWith (p s : jsstring) : bool :=
  match p, s with
  | [], _ => true
  | _ :: _, [] => false
  | a :: p', b :: s' => bool_decide (a = b) && startsWith p' s'
  end.

(** Whether the first or the last character is whitespace. *)
Definition edge_space (s : jsstring) : bool :=
  from_option Char.is_space false (head s)
  || from_option Char.is_space false (last s).

(** [s.includes(p)] *)
Fixpoint includes (p s : jsstring) : bool :=
  startsWith p s ||
  match s with
  | [] => false
  | _ :: s' => includes p s'
  end.

(** [/\d/.test(s)] *)
Definition has_digit (s : jsstring) : bool := existsb Char.is_digit s.

(** [arr.includes(x)] on an array of strings. *)
Definition array_includes (arr : list jsstring) (x : jsstring) : bool :=
  existsb (fun y => bool_decide (y = x)) arr.

(** [s.replace(pat, rep)] with a string pattern: the first occurrence only. *)
Fixpoint replace (pat rep s : jsstring) : jsstring :=
  if startsWith pat s then rep ++ drop (length pat) s
  else match s with
       | [] => []
       | c :: s' => c :: replace pat rep s'
       end.

End Str.

(** ** Helper functions (index.js, lines 51-68) *)

(** [maskNumber]: [String(number)] is the identity, the callers pass strings. *)
Definition maskNumber (number : jsstring) : jsstring :=
  let numStr := Str.trim number in
  if 7 <? length numStr
  then Str.substring 0 3 numStr ++ str "***"
       ++ Str.substring_from (length numStr - 4) numStr
  else numStr.

(** The test of the loop of [extractCountryFromTermination]. *)
Definition is_terminator (part : jsstring) : bool :=
  Str.array_includes [str "MOBILE"; str "FIXED"] (Str.toUpperCase part)
  || Str.has_digit part.

(** The [for ... of] loop with its [break]; [countryParts] is the array the
    loop pushes to. *)
Fixpoint collect_country_parts (parts countryParts : list jsstring)
  : list jsstring :=
  match parts with
  | [] => countryParts
  | part :: rest =>
      if is_terminator part then countryParts
      else collect_country_parts rest (countryParts ++ [part])
  end.

Definition extractCountryFromTermination (text : jsstring) : jsstring :=
  let parts := Str.split " "%char text in
  let countryParts := collect_country_parts parts [] in
  if 0 <? length countryParts then Str.join (str " ") countryParts else text.

(** The country of a row as the poller computes it (line 373): the cell text
    is trimmed before the extraction. *)
Definition country_of_cell (cell : jsstring) : jsstring :=
  extractCountryFromTermination (Str.trim cell).

(** The description of the country column in the design document, kept apart
    from the code: tokens are the maximal runs of non-whitespace
    characters. *)
Module CountrySpec.

(** The pieces between whitespace characters, empty pieces included. *)
Definition ws_pieces (s : jsstring) : list jsstring :=
  Str.pieces Char.is_space s.

Definition nonempty (s : jsstring) : bool :=
  match s with [] => false | _ => true end.

(** Whitespace-separated tokens. *)
Definition tokens (s : jsstring) : list jsstring :=
  List.filter nonempty (ws_pieces s).

(** A token that case-insensitively equals MOBILE or FIXED. *)
Definition is_kind_word (tok : jsstring) : bool :=
  Str.array_includes [str "MOBILE"; str "FIXED"] (Str.toUpperCase tok).

Definition stops (tok : jsstring) : bool :=
  is_kind_word tok || Str.has_digit tok.

Fixpoint leading (toks : list jsstring) : list jsstring :=
  match toks with
  | [] => []
  | t :: ts => if stops t then [] else t :: leading ts
  end.

(** Leading tokens up to the first stopping one, joined with one space;
    the trimmed text when none was accepted. *)
Definition country (text : jsstring) : jsstring :=
  match leading (tokens text) with
  | [] => Str.trim text
  | accepted => Str.join (str " ") accepted
  end.

End CountrySpec.

(** ** The play pattern (index.js, line 384)

    The regular expression reads [Play\(Q(N+)Q,\s*Q(N+)Q\)], where [Q] is the
    class of the single and the double quote and [N] its complement.
    [String.prototype.match] finds the leftmost position where it matches.
    After a greedy [N+] the pattern asks for a quote and after a greedy [\s*]
    as well, and neither class contains a quote, so a shorter repetition can
    never succeed where the longest fails: the matcher needs no
    backtracking. *)
Module PlayPattern.

(** One character of the class [P]. *)
Definition class (P : ascii → bool) (s : jsstring) : option jsstring :=
  match s with
  | c :: s' => if P c then Some s' else None
  | [] => None
  end.

Definition literal (p s : jsstring) : option jsstring :=
  if Str.startsWith p s then Some (drop (length p) s) else None.

(** Greedy [N+]: the captured group and the rest. *)
Fixpoint non_quotes (s : jsstring) : jsstring * jsstring :=
  match s with
  | c :: s' =>
      if Char.is_quote c then ([], s)
      else let '(g, r) := non_quotes s' in (c :: g, r)
  | [] => ([], [])
  end.

Definition group (s : jsstring) : option (jsstring * jsstring) :=
  match non_quotes s with
  | ([], _) => None
  | (g, r) => Some (g, r)
  end.

(** Greedy [\s*]. *)
Fixpoint spaces (s : jsstring) : jsstring :=
  match s with
  | c :: s' => if Char.is_space c then spaces s' else s
  | [] => []
  end.

(** The pattern anchored at the head of [s]: the groups 1 and 2. *)
Definition match_here (s : jsstring) : option (jsstring * jsstring) :=
  s ← literal (str "Play(") s;
  s ← class Char.is_quote s;
  '(did, s) ← group s;
  s ← class Char.is_quote s;
  s ← literal (str ",") s;
  s ← class Char.is_quote (spaces s);
  '(uuid, s) ← group s;
  s ← class Char.is_quote s;
  _ ← literal (str ")") s;
  Some (did, uuid).

(** [onclickAttr.match(...)]: [None] is JavaScript's [null]. *)
Fixpoint exec (s : jsstring) : option (jsstring * jsstring) :=
  match match_here s with
  | Some m => Some m
  | None => match s with
            | [] => None
            | _ :: s' => exec s'
            end
  end.

(** What the pattern describes, stated apart from the matcher: somewhere in
    the text stands [Play(], a quote, a non-empty run without quotes, a
    quote, a comma, any whitespace, and the same again for the second
    argument, closed by [)]. *)
Inductive matches : jsstring → jsstring → jsstring → Prop :=
| matches_at pre q1 did q2 ws q3 uuid q4 post :
    Char.is_quote q1 = true → Char.is_quote q2 = true →
    Char.is_quote q3 = true → Char.is_quote q4 = true →
    did ≠ [] → Forall (fun c => Char.is_quote c = false) did →
    uuid ≠ [] → Forall (fun c => Char.is_quote c = false) uuid →
    Forall (fun c => Char.is_space c = true) ws →
    matches
      (pre ++ str "Play(" ++ [q1] ++ did ++ [q2] ++ str "," ++ ws
       ++ [q3] ++ uuid ++ [q4] ++ str ")" ++ post)
      did uuid.

End PlayPattern.

(** ** The poller (index.js, lines 347-409) *)
Module Poller.

(** The object [callData]; [audioUrl] is absent until line 387 sets it. *)
Record CallData := {
  country : jsstring;
  number : jsstring;
  cliNumber : jsstring;
  audioUrl : option jsstring;
}.

(** What the callback reads of a table row: the text of each [td], and the
    [onclick] attribute of each [button[onclick*='Play']] inside the row,
    both in document order. *)
Record Row := {
  columns : list jsstring;
  playButtons : list jsstring;
}.

Inductive Event :=
| Marked (callId : jsstring)              (* processedCalls.add(callId) *)
| InstantNotification (callData : CallData) (* sendInstantNotification(callData) *)
| WorkerScheduled (callData : CallData)   (* setTimeout(processCallWorker ...) *)
| FailedNotification (callData : CallData). (* sendFailedCallNotification(callData) *)

Record State := {
  processedCalls : gset jsstring;
  trace : list Event;                     (* oldest first *)
}.

Definition init : State := {| processedCalls := ∅; trace := [] |}.

(** How a callback or a scan ends: normally, or with an exception. *)
Inductive Completion := Normal | Thrown.

(** The deduplication store: [processedCalls.has] and [processedCalls.add]. *)
Definition seen (st : State) (callId : jsstring) : bool :=
  bool_decide (callId ∈ processedCalls st).

Definition mark (callId : jsstring) (st : State) : State :=
  {| processedCalls := {[callId]} ∪ processedCalls st;
     trace := trace st ++ [Marked callId] |}.

Definition emit (e : Event) (st : State) : State :=
  {| processedCalls := processedCalls st; trace := trace st ++ [e] |}.

Definition cell (i : nat) (cols : list jsstring) : jsstring :=
  default [] (cols !! i).

Definition sound_url (did uuid : jsstring) : jsstring :=
  str "https://www.orangecarrier.com/live/calls/sound?did=" ++ did
  ++ str "&uuid=" ++ uuid.

Definition callStatus_of (row : Row) : jsstring :=
  Str.toUpperCase (Str.trim (cell (length (columns row) - 1) (columns row))).

Definition callData_of (row : Row) : CallData :=
  {| country := country_of_cell (cell 0 (columns row));
     number := Str.trim (cell 1 (columns row));
     cliNumber := Str.trim (cell 2 (columns row));
     audioUrl := None |}.

Definition with_audioUrl (url : jsstring) (cd : CallData) : CallData :=
  {| country := country cd; number := number cd; cliNumber := cliNumber cd;
     audioUrl := Some url |}.

Definition is_FAILED (callStatus : jsstring) : bool :=
  bool_decide (callStatus = str "FAILED").

(** The callback of [.each] (lines 365-401) on one row.  In the source the
    two notification functions are [async] and catch their transport
    errors, and the continuation of [sendInstantNotification] always
    schedules the worker.  [raises] lets the dispatching call end with an
    exception all the same: the call is then recorded and the callback is
    abandoned. *)
Definition row_callback (raises : bool) (row : Row) (st : State)
  : State * Completion :=
  if 2 <? length (columns row) then
    let callStatus := callStatus_of row in
    let callData := callData_of row in
    let callId := cliNumber callData in
    if seen st callId then (st, Normal)
    else
      let st := mark callId st in
      if (0 <? length (playButtons row)) && negb (is_FAILED callStatus) then
        let onclickAttr := default [] (head (playButtons row)) in
        match PlayPattern.exec onclickAttr with
        | Some (did, uuid) =>
            let callData := with_audioUrl (sound_url did uuid) callData in
            let st := emit (InstantNotification callData) st in
            if raises then (st, Thrown)
            else (emit (WorkerScheduled callData) st, Normal)
        | None => (st, Normal)
        end
      else if is_FAILED callStatus then
        let st := emit (FailedNotification callData) st in
        if raises then (st, Thrown) else (st, Normal)
      else (st, Normal)
  else (st, Normal).

(** [$(...).each(callback)]: the rows in document order, until an exception
    leaves the loop.  [raises i] is the outcome of a dispatch at row [i]. *)
Fixpoint each (raises : nat → bool) (i : nat) (rows : list Row) (st : State)
  : State * Completion :=
  match rows with
  | [] => (st, Normal)
  | row :: rest =>
      match row_callback (raises i) row st with
      | (st', Normal) => each raises (S i) rest st'
      | (st', Thrown) => (st', Thrown)
      end
  end.

(** One turn of the [while (true)] loop: the [try] block over the rows of
    the page ([None] when [page.content()] or the parse throws); the
    [catch] logs, waits and lets the loop go on. *)
Definition tick (raises : nat → bool) (page : option (list Row)) (st : State)
  : State :=
  match page with
  | Some rows => fst (each raises 0 rows st)
  | None => st
  end.

(** A run: the pages read at the successive turns.  [raises t i] is the
    outcome of a dispatch at row [i] of turn [t]. *)
Fixpoint run_from (t : nat) (raises : nat → nat → bool)
  (pages : list (option (list Row))) (st : State) : State :=
  match pages with
  | [] => st
  | page :: later => run_from (S t) raises later (tick (raises t) page st)
  end.

Definition run := run_from 0.

(** The call an event is about. *)
Definition event_cli (e : Event) : jsstring :=
  match e with
  | Marked callId => callId
  | InstantNotification cd | WorkerScheduled cd | FailedNotification cd =>
      cliNumber cd
  end.

Definition marks (cli : jsstring) (e : Event) : bool :=
  match e with
  | Marked callId => bool_decide (callId = cli)
  | _ => false
  end.

(** The events of a trace that dispatch the call [cli]. *)
Definition notifies (cli : jsstring) (e : Event) : bool :=
  match e with
  | InstantNotification cd | FailedNotification cd =>
      bool_decide (cliNumber cd = cli)
  | _ => false
  end.

Definition schedules (cli : jsstring) (e : Event) : bool :=
  match e with
  | WorkerScheduled cd => bool_decide (cliNumber cd = cli)
  | _ => false
  end.

Definition dispatches (cli : jsstring) (e : Event) : bool :=
  notifies cli e || schedules cli e.

(** The events that belong to the audio branch. *)
Definition starts_audio (e : Event) : bool :=
  match e with
  | InstantNotification _ | WorkerScheduled _ => true
  | _ => false
  end.

Definition count (p : Event → bool) (tr : list Event) : nat :=
  length (List.filter p tr).

(** What one callback adds to the state: nothing, or the mark of a call not
    seen before followed by the events that dispatch it. *)
Inductive extends (st : State) : State → Prop :=
| extends_same : extends st st
| extends_fresh c evs :
    c ∉ processedCalls st →
    Forall (fun e => event_cli e = c ∧ marks c e = false) evs →
    count (notifies c) evs ≤ 1 →
    count (schedules c) evs ≤ 1 →
    extends st {| processedCalls := {[c]} ∪ processedCalls st;
                  trace := trace st ++ Marked c :: evs |}.

(** The invariant of the poller: every event is about a stored call, every
    call is marked, notified and scheduled at most once, and its mark
    comes before its dispatch. *)
Record Inv (st : State) : Prop := {
  inv_known : ∀ e, e ∈ trace st → event_cli e ∈ processedCalls st;
  inv_once : ∀ c,
    count (marks c) (trace st) ≤ 1
    ∧ count (notifies c) (trace st) ≤ 1
    ∧ count (schedules c) (trace st) ≤ 1;
  inv_order : ∀ c l1 e l2,
    trace st = l1 ++ e :: l2 → dispatches c e = true → Marked c ∈ l1;
}.

End Poller.

(** ** Effects

    Code that calls the outside world is a function of the state of that
    world, which returns the effects it performed, the new state, and a value
    or an exception. *)
Module Eff.

Inductive Result (A : Type) :=
| Ok (a : A)
| Throw (message : jsstring).
Arguments Ok {A} a.
Arguments Throw {A} message.

Definition M (W E A : Type) : Type := W → list E * W * Result A.

Section Ops.
Context {W E : Type}.

Definition ret {A} (a : A) : M W E A := fun w => ([], w, Ok a).

Definition bind {A B} (m : M W E A) (k : A → M W E B) : M W E B :=
  fun w =>
    match m w with
    | (es, w', Ok a) =>
        match k a w' with
        | (es', w'', r) => (es ++ es', w'', r)
        end
    | (es, w', Throw msg) => (es, w', Throw msg)
    end.

Definition throw {A} (msg : jsstring) : M W E A :=
  fun w => ([], w, Throw msg).

(** [try { m } catch (e) { handler(e.message) }] *)
Definition try_catch {A} (m : M W E A) (handler : jsstring → M W E A)
  : M W E A :=
  fun w =>
    match m w with
    | (es, w', Ok a) => (es, w', Ok a)
    | (es, w', Throw msg) =>
        match handler msg w' with
        | (es', w'', r) => (es ++ es', w'', r)
        end
    end.

Definition tell (e : E) : M W E unit := fun w => ([e], w, Ok tt).
Definition get : M W E W := fun w => ([], w, Ok w).
Definition put (w : W) : M W E unit := fun _ => ([], w, Ok tt).

Definition effects {A} (r : list E * W * Result A) : list E := r.1.1.
Definition world {A} (r : list E * W * Result A) : W := r.1.2.
Definition result {A} (r : list E * W * Result A) : Result A := r.2.
End Ops.

Declare Scope eff_scope.
Delimit Scope eff_scope with eff.
Notation "'let*' x ':=' m 'in' k" := (bind m (fun x => k))
  (at level 10, x pattern, m at level 100, k at level 200) : eff_scope.
Notation "m1 '>>' m2" := (bind m1 (fun _ => m2))
  (at level 100, m2 at level 200, right associativity) : eff_scope.

End Eff.

(** ** The audio pipeline (index.js, lines 70-108 and 268-329) *)
Module Worker.
Import Eff.
Local Open Scope eff_scope.

Inductive LogLine :=
| AudioDownloaded | ConvertedToMp3 | FfmpegError
| AudioSent | AudioSendFailed
| MessageDeleted | MessageDeleteFailed
| TempFilesDeleted
| ProcessingError (cliNumber message : jsstring).

Inductive Effect :=
| HttpGet (url cookie : jsstring)         (* axios.get(audioUrl, ...) *)
| WriteFile (path : jsstring)             (* fs.writeFileSync *)
| Transcode (src dst : jsstring)          (* ffmpeg(src)...save(dst) *)
| SendAudio (caption file : jsstring)     (* axios.post(.../sendAudio) *)
| DeleteMessage (messageId : nat)         (* axios.post(.../deleteMessage) *)
| Unlink (path : jsstring)                (* fs.unlinkSync *)
| LogInfo (line : LogLine)
| LogError (line : LogLine).

(** The files beside the running process. *)
Record Disk := { files : gset jsstring }.

(** What the outside world answers during one run of the worker.  The
    caption is built with [getCountryFlag], [escapeMarkdownV2] and the
    clock; [escapeMarkdownV2] is neither defined nor imported in index.js,
    so building the caption is a step that may throw. *)
Record Env := {
  now : N;                       (* Date.now() *)
  dirname : jsstring;            (* __dirname *)
  response : option jsstring;    (* axios.get: the body, None when it rejects *)
  write_ok : bool;               (* fs.writeFileSync returns *)
  ffmpeg_ok : bool;              (* the end event, else the error event *)
  ffmpeg_left_output : bool;     (* a failed conversion left its output file *)
  caption : option jsstring;     (* the caption, None when building it throws *)
  sendAudio_ok : bool;           (* the sendAudio request succeeds *)
  deleteMessage_ok : bool;       (* the deleteMessage request succeeds *)
}.

Record Cookie := { cookie_name : jsstring; cookie_value : jsstring }.

Abbreviation W := (M Disk Effect).

Section Pipeline.
(** [path.join] of Node.js. *)
Variable path_join : jsstring → jsstring → jsstring.
Variable env : Env.

Definition add_file (p : jsstring) : W unit :=
  fun d => ([], {| files := {[p]} ∪ files d |}, Ok tt).

(** [fs.unlinkSync]: throws when the file does not exist. *)
Definition unlinkSync (p : jsstring) : W unit :=
  tell (Unlink p) >>
  let* d := get in
  if decide (p ∈ files d) then put {| files := files d ∖ {[p]} |}
  else throw (str "ENOENT").

Definition writeFileSync (p : jsstring) : W unit :=
  tell (WriteFile p) >>
  if write_ok env then add_file p else throw (str "write failed").

Definition axios_get (url : option jsstring) (cookie : jsstring)
  : W jsstring :=
  match url with
  | None => throw (str "invalid url")
  | Some u =>
      tell (HttpGet u cookie) >>
      match response env with
      | Some body => ret body
      | None => throw (str "request failed")
      end
  end.

(** The promise around ffmpeg (lines 292-305). *)
Definition transcode (src dst : jsstring) : W unit :=
  tell (Transcode src dst) >>
  if ffmpeg_ok env then
    add_file dst >> tell (LogInfo ConvertedToMp3)
  else
    (if ffmpeg_left_output env then add_file dst else ret tt) >>
    tell (LogError FfmpegError) >>
    throw (str "ffmpeg error").

Definition build_caption : W jsstring :=
  match caption env with
  | Some c => ret c
  | None => throw (str "escapeMarkdownV2 is not defined")
  end.

(** [deleteTelegramMessage] (lines 70-83): the error is caught inside. *)
Definition deleteTelegramMessage (messageId : nat) : W bool :=
  try_catch
    (tell (DeleteMessage messageId) >>
     (if deleteMessage_ok env then ret tt
      else throw (str "request failed")) >>
     tell (LogInfo MessageDeleted) >>
     ret true)
    (fun _ => tell (LogError MessageDeleteFailed) >> ret false).

(** [sendAudioToTelegramGroup] (lines 85-108): the error is caught
    inside. *)
Definition sendAudioToTelegramGroup (caption filePath : jsstring)
  : W bool :=
  try_catch
    (tell (SendAudio caption filePath) >>
     (if sendAudio_ok env then ret tt
      else throw (str "request failed")) >>
     tell (LogInfo AudioSent) >>
     ret true)
    (fun _ => tell (LogError AudioSendFailed) >> ret false).

(** [if (notificationMessageId)]: null and 0 are falsy. *)
Definition truthy (notificationMessageId : option nat) : option nat :=
  match notificationMessageId with
  | Some (S n) => Some (S n)
  | _ => None
  end.

(** What [sendAudioToTelegramGroup] does, whether the request succeeds
    or not. *)
Definition send_effects (caption file : jsstring) : list Effect :=
  [SendAudio caption file;
   if sendAudio_ok env then LogInfo AudioSent
   else LogError AudioSendFailed].

(** What the retraction of the detected alert does. *)
Definition retract_effects (notificationMessageId : option nat)
  : list Effect :=
  match truthy notificationMessageId with
  | Some m =>
      [DeleteMessage m;
       if deleteMessage_ok env then LogInfo MessageDeleted
       else LogError MessageDeleteFailed]
  | None => []
  end.

Definition fileName_of (cliNumber : jsstring) : jsstring :=
  str "call_" ++ str (pretty (now env)) ++ str "_" ++ cliNumber
  ++ str ".wav".

Definition filePath_of (cliNumber : jsstring) : jsstring :=
  path_join (dirname env) (fileName_of cliNumber).

Definition filePathMp3_of (cliNumber : jsstring) : jsstring :=
  Str.replace (str ".wav") (str ".mp3") (filePath_of cliNumber).

Definition cookie_header (cookies : list Cookie) : jsstring :=
  Str.join (str "; ")
    (map (fun c => cookie_name c ++ str "=" ++ cookie_value c) cookies).

(** The [try] block of [processCallWorker]. *)
Definition worker_body (callData : Poller.CallData)
  (cookies : list Cookie) (notificationMessageId : option nat) : W unit :=
  let filePath := filePath_of (Poller.cliNumber callData) in
  let* _ := axios_get (Poller.audioUrl callData) (cookie_header cookies) in
  writeFileSync filePath >>
  tell (LogInfo AudioDownloaded) >>
  let filePathMp3 := filePathMp3_of (Poller.cliNumber callData) in
  transcode filePath filePathMp3 >>
  let* caption := build_caption in
  let* _ := sendAudioToTelegramGroup caption filePathMp3 in
  (match truthy notificationMessageId with
   | Some messageId => deleteTelegramMessage messageId
   | None => ret false
   end) >>
  unlinkSync filePath >>
  unlinkSync filePathMp3 >>
  tell (LogInfo TempFilesDeleted).

Definition processCallWorker (callData : Poller.CallData)
  (cookies : list Cookie) (notificationMessageId : option nat) : W unit :=
  try_catch
    (worker_body callData cookies notificationMessageId)
    (fun message =>
       tell (LogError (ProcessingError (Poller.cliNumber callData) message))).

End Pipeline.

(** The step of the pipeline an effect belongs to: 1 fetch and store,
    2 transcode, 3 deliver, 4 retract, 5 delete the temporary files. *)
Definition step_of (e : Effect) : option nat :=
  match e with
  | HttpGet _ _ | WriteFile _ => Some 1
  | Transcode _ _ => Some 2
  | SendAudio _ _ => Some 3
  | DeleteMessage _ => Some 4
  | Unlink _ => Some 5
  | LogInfo _ | LogError _ => None
  end.

(** No effect of a step after step [k]. *)
Definition within (k : nat) (e : Effect) : bool :=
  match step_of e with
  | Some j => j <=? k
  | None => true
  end.

(** No step before the deletions throws: the address is there, the fetch,
    the write and the conversion succeed and the caption is built. *)
Definition reaches_cleanup (env : Env) (callData : Poller.CallData) : bool :=
  bool_decide (is_Some (Poller.audioUrl callData))
  && bool_decide (is_Some (response env))
  && write_ok env && ffmpeg_ok env
  && bool_decide (is_Some (caption env)).

Definition is_unlink (e : Effect) : bool :=
  match e with Unlink _ => true | _ => false end.

Definition is_processing_error (e : Effect) : bool :=
  match e with LogError (ProcessingError _ _) => true | _ => false end.

End Worker.

(** ** The login loop (index.js, lines 169-263) *)
Module Login.
Import Eff.
Local Open Scope eff_scope.

(** The attributes the form scan reads of an input element; [None] is a
    missing attribute. *)
Record InputAttrs := {
  attr_type : option jsstring;
  attr_placeholder : option jsstring;
  attr_name : option jsstring;
  attr_id : option jsstring;
}.

(** What the browser and the site answer during one attempt. *)
Record AttemptEnv := {
  launch_ok : bool;              (* puppeteer.launch resolves *)
  open_ok : bool;                (* newPage, goto and the input query resolve *)
  inputs : list InputAttrs;      (* page.$$("input") *)
  typing_ok : bool;              (* both type calls resolve *)
  submit_control : bool;         (* a submit-typed button or input exists *)
  sign_in_buttons : option nat;  (* how many buttons contain Sign In;
                                    None when the query throws *)
  click_ok : bool;               (* the click resolves *)
  currentUrl : jsstring;         (* page.url() after the submit *)
  pageContent : option jsstring; (* page.content(), None when it throws *)
  live_cookies : option (list Worker.Cookie);
                                 (* goto live calls, then page.cookies() *)
}.

Inductive BrowserEvent :=
| Launched (browser : nat)
| Closed (browser : nat)
| AttemptFailed (attempt : nat) (message : jsstring)
| Retrying.

(** The browsers of the machine and the local variable [browser]. *)
Record Machine := {
  next_browser : nat;
  open_browsers : gset nat;
  browser : option nat;
}.

Record Session := {
  session_browser : nat;
  session_cookies : list Worker.Cookie;
}.

Abbreviation L := (M Machine BrowserEvent).

Definition mentions_email (attr : option jsstring) : bool :=
  match attr with
  | Some v => Str.includes (str "email") (Str.toLowerCase v)
  | None => false
  end.

Definition looks_like_email (attrs : InputAttrs) : bool :=
  bool_decide (attr_type attrs = Some (str "email"))
  || mentions_email (attr_placeholder attrs)
  || mentions_email (attr_name attrs)
  || mentions_email (attr_id attrs).

Definition is_password (attrs : InputAttrs) : bool :=
  bool_decide (attr_type attrs = Some (str "password")).

(** The loop over the inputs (lines 195-212): the index of the first input
    that looks like the e-mail field and of the first password input. *)
Fixpoint scan_inputs (i : nat) (inputs : list InputAttrs)
  (emailField passField : option nat) : option nat * option nat :=
  match inputs with
  | [] => (emailField, passField)
  | attrs :: rest =>
      let emailField :=
        if negb (bool_decide (is_Some emailField)) && looks_like_email attrs
        then Some i else emailField in
      let passField :=
        if negb (bool_decide (is_Some passField)) && is_password attrs
        then Some i else passField in
      scan_inputs (S i) rest emailField passField
  end.

Definition guard (ok : bool) (message : jsstring) : L unit :=
  if ok then ret tt else throw message.

(** [browser = await puppeteer.launch(...)]: a browser never handed out
    before; the variable is assigned only when the launch resolves. *)
Definition launch (e : AttemptEnv) : L nat :=
  guard (launch_ok e) (str "launch failed") >>
  let* m := get in
  let b := next_browser m in
  put {| next_browser := S b;
         open_browsers := {[b]} ∪ open_browsers m;
         browser := Some b |} >>
  tell (Launched b) >>
  ret b.

(** [await browser.close(); browser = null]. *)
Definition close_browser : L unit :=
  let* m := get in
  match browser m with
  | Some b =>
      put {| next_browser := next_browser m;
             open_browsers := open_browsers m ∖ {[b]};
             browser := None |} >>
      tell (Closed b)
  | None => ret tt
  end.

(** The [try] block of one turn of the loop. *)
Definition attempt_body (e : AttemptEnv) : L Session :=
  let* b := launch e in
  guard (open_ok e) (str "navigation failed") >>
  match scan_inputs 0 (inputs e) None None with
  | (Some _, Some _) => guard (typing_ok e) (str "typing failed")
  | _ => throw (str "Could not detect email or password field!")
  end >>
  let* loginBtn :=
    (if submit_control e then ret true
     else match sign_in_buttons e with
          | Some n => ret (0 <? n)
          | None => throw (str "query failed")
          end) in
  (if loginBtn : bool then guard (click_ok e) (str "click failed")
   else throw (str "Sign In button not found!")) >>
  let* found :=
    (if Str.includes (str "orangecarrier.com") (currentUrl e) then
       match pageContent e with
       | Some content =>
           if Str.includes (str "Dashboard") content
              || Str.includes (str "Account Code") content
           then
             match live_cookies e with
             | Some cookies =>
                 ret (Some {| session_browser := b;
                              session_cookies := cookies |})
             | None => throw (str "navigation failed")
             end
           else ret None
       | None => throw (str "content failed")
       end
     else ret None) in
  match found with
  | Some session => ret session
  | None => throw (str "Login failed or dashboard not detected.")
  end.

(** The [while (attempt < maxRetries)] loop.  Every turn either returns or
    adds one to [attempt]; [fuel] bounds the turns, and the outer [None]
    says that it ran out.  The inner [None] is JavaScript's [null]. *)
Fixpoint login_loop (fuel : nat) (maxRetries : nat) (env : nat → AttemptEnv)
  (attempt : nat) : L (option (option Session)) :=
  match fuel with
  | 0 => ret None
  | S fuel =>
      if attempt <? maxRetries then
        let* r :=
          try_catch
            (let* s := attempt_body (env attempt) in ret (inl s))
            (fun message =>
               let attempt := S attempt in
               tell (AttemptFailed attempt message) >>
               close_browser >>
               ret (inr attempt)) in
        match r with
        | inl session => ret (Some (Some session))
        | inr attempt =>
            if maxRetries <=? attempt then ret (Some None)
            else tell Retrying >> login_loop fuel maxRetries env attempt
        end
      else ret (Some None)
  end.

Definition start : Machine :=
  {| next_browser := 0; open_browsers := ∅; browser := None |}.

(** [loginToDashboard({ maxRetries })], started with [browser = null].
    [env i] answers the attempt that starts with [attempt = i]. *)
Definition loginToDashboard (maxRetries : nat) (env : nat → AttemptEnv)
  : L (option (option Session)) :=
  fun m =>
    login_loop (S maxRetries) maxRetries env 0
      {| next_browser := next_browser m;
         open_browsers := open_browsers m;
         browser := None |}.

(** The browsers open after a sequence of events. *)
Fixpoint open_after (events : list BrowserEvent) (opened : gset nat) : gset nat :=
  match events with
  | [] => opened
  | Launched b :: rest => open_after rest ({[b]} ∪ opened)
  | Closed b :: rest => open_after rest (opened ∖ {[b]})
  | _ :: rest => open_after rest opened
  end.

Definition launched (events : list BrowserEvent) : list nat :=
  omap (fun e => match e with Launched b => Some b | _ => None end) events.

Definition is_failure (e : BrowserEvent) : bool :=
  match e with AttemptFailed _ _ => true | _ => false end.

(** Every browser that is open was handed out before. *)
Definition well_formed (m : Machine) : Prop :=
  ∀ b, b ∈ open_browsers m → b < next_browser m.

(** The events and the machine after a turn whose [try] block threw:
    the launch failed, or the browser it created was closed. *)
Inductive failed_turn (a : nat) (msg : jsstring) (m : Machine)
  : list BrowserEvent → Machine → Prop :=
| failed_before_launch :
    failed_turn a msg m [AttemptFailed (S a) msg] m
| failed_after_launch :
    failed_turn a msg m
      [Launched (next_browser m); AttemptFailed (S a) msg;
       Closed (next_browser m)]
      {| next_browser := S (next_browser m);
         open_browsers := ({[next_browser m]} ∪ open_browsers m)
                          ∖ {[next_browser m]};
         browser := None |}.

(** A launch happens only while no browser is open and yields a browser not
    used before; at the end no browser is open. *)
Fixpoint disciplined (events : list BrowserEvent) (opened : gset nat)
  (used : list nat) : Prop :=
  match events with
  | [] => opened = ∅
  | Launched b :: rest =>
      opened = ∅ ∧ (b ∉ used) ∧ disciplined rest {[b]} (b :: used)
  | Closed b :: rest => disciplined rest (opened ∖ {[b]}) used
  | _ :: rest => disciplined rest opened used
  end.

End Login.

(** ** Sample inputs *)
Module Samples.

Definition tab : ascii := "009"%char.

(** A country cell with a tab between the country and the kind. *)
Definition tabbed_cell : jsstring := str "UK" ++ [tab] ++ str "MOBILE 07123".

Definition live_row : Poller.Row :=
  {| Poller.columns :=
       [str "UNITED KINGDOM MOBILE 07123"; str "447700900123";
        str "CLI-1"; str "00:12"; str "ANSWERED"];
     Poller.playButtons := [str "Play('did-7','uuid-9'); return false;"] |}.

(** A play control whose handler has one argument only. *)
Definition odd_row : Poller.Row :=
  {| Poller.columns :=
       [str "FRANCE FIXED 0145"; str "33145000000"; str "CLI-2";
        str "ANSWERED"];
     Poller.playButtons := [str "Play('did-7')"] |}.

Definition ringing_row : Poller.Row :=
  {| Poller.columns :=
       [str "SPAIN MOBILE 0611"; str "34611000000"; str "CLI-3";
        str "RINGING"];
     Poller.playButtons := [] |}.

(** The same call once it has failed; its row even has a play control. *)
Definition failed_row : Poller.Row :=
  {| Poller.columns :=
       [str "SPAIN MOBILE 0611"; str "34611000000"; str "CLI-3";
        str " failed "];
     Poller.playButtons := [str "Play('did-1','uuid-2')"] |}.

Definition path_join (dir file : jsstring) : jsstring :=
  dir ++ str "/" ++ file.

Definition call : Poller.CallData :=
  {| Poller.country := str "UNITED KINGDOM";
     Poller.number := str "447700900123";
     Poller.cliNumber := str "CLI-1";
     Poller.audioUrl :=
       Some (Poller.sound_url (str "did-7") (str "uuid-9")) |}.

(** Everything succeeds except the delivery of the audio file. *)
Definition delivery_fails : Worker.Env :=
  {| Worker.now := 1700000000000%N;
     Worker.dirname := str "/app";
     Worker.response := Some (str "RIFF");
     Worker.write_ok := true;
     Worker.ffmpeg_ok := true;
     Worker.ffmpeg_left_output := false;
     Worker.caption := Some (str "NEW CALL");
     Worker.sendAudio_ok := false;
     Worker.deleteMessage_ok := true |}.

(** The recording is stored, then the conversion fails. *)
Definition transcode_fails : Worker.Env :=
  {| Worker.now := 1700000000000%N;
     Worker.dirname := str "/app";
     Worker.response := Some (str "RIFF");
     Worker.write_ok := true;
     Worker.ffmpeg_ok := false;
     Worker.ffmpeg_left_output := false;
     Worker.caption := Some (str "NEW CALL");
     Worker.sendAudio_ok := true;
     Worker.deleteMessage_ok := true |}.

(** A login page without any input element. *)
Definition no_fields : Login.AttemptEnv :=
  {| Login.launch_ok := true;
     Login.open_ok := true;
     Login.inputs := [];
     Login.typing_ok := true;
     Login.submit_control := true;
     Login.sign_in_buttons := Some 0;
     Login.click_ok := true;
     Login.currentUrl := str "https://www.orangecarrier.com/login";
     Login.pageContent := Some (str "Sign In");
     Login.live_cookies := Some [] |}.

End Samples.

(** ** Observations on traces, and more sample inputs *)
Module Observe.

(** The events that follow the mark of the call [c] in one callback of the
    poller. *)
Inductive dispatched (c : jsstring) : list Poller.Event → Prop :=
| dispatched_nothing : dispatched c []
| dispatched_detected cd did uuid :
    Poller.cliNumber cd = c →
    Poller.audioUrl cd = Some (Poller.sound_url did uuid) →
    did ≠ [] → uuid ≠ [] →
    dispatched c [Poller.InstantNotification cd; Poller.WorkerScheduled cd]
| dispatched_thrown cd did uuid :
    Poller.cliNumber cd = c →
    Poller.audioUrl cd = Some (Poller.sound_url did uuid) →
    did ≠ [] → uuid ≠ [] →
    dispatched c [Poller.InstantNotification cd]
| dispatched_failed cd :
    Poller.cliNumber cd = c → Poller.audioUrl cd = None →
    dispatched c [Poller.FailedNotification cd].

(** How many effects of the step [k] a worker performed. *)
Definition count_step (k : nat) (es : list Worker.Effect) : nat :=
  length (List.filter (fun e => bool_decide (Worker.step_of e = Some k)) es).

(** The process runs from a directory whose name contains [.wav]. *)
Definition wav_directory : Worker.Env :=
  {| Worker.now := 1700000000000%N;
     Worker.dirname := str "/srv/calls.wav";
     Worker.response := Some (str "RIFF");
     Worker.write_ok := true;
     Worker.ffmpeg_ok := true;
     Worker.ffmpeg_left_output := false;
     Worker.caption := Some (str "NEW CALL");
     Worker.sendAudio_ok := true;
     Worker.deleteMessage_ok := true |}.

Definition input_of_type (type : string) : Login.InputAttrs :=
  {| Login.attr_type := Some (str type);
     Login.attr_placeholder := None;
     Login.attr_name := None;
     Login.attr_id := None |}.

(** A login page on which everything works. *)
Definition good_page : Login.AttemptEnv :=
  {| Login.launch_ok := true;
     Login.open_ok := true;
     Login.inputs := [input_of_type "text"; input_of_type "email";
                      input_of_type "password"];
     Login.typing_ok := true;
     Login.submit_control := false;
     Login.sign_in_buttons := Some 1;
     Login.click_ok := true;
     Login.currentUrl := str "https://www.orangecarrier.com/home";
     Login.pageContent := Some (str "<h1>Dashboard</h1>");
     Login.live_cookies := Some [] |}.

End Observe.

(** * Properties *)

(** ** Trimming *)
Section TrimFacts.

Lemma is_space_upper c : Char.is_space c = true → Char.upper c = c.
Proof. destruct c as [[] [] [] [] [] [] [] []]; vm_compute; congruence. Qed.

Lemma quote_not_space q : Char.is_quote q = true → Char.is_space q = false.
Proof. destruct q as [[] [] [] [] [] [] [] []]; vm_compute; congruence. Qed.

Lemma trimEnd_idemp s : Str.trimEnd (Str.trimEnd s) = Str.trimEnd s.
Proof.
  induction s as [|c s IH]; simpl; [done|].
  destruct (Str.trimEnd s) as [|d r] eqn:E.
  - destruct (Char.is_space c) eqn:Ec; simpl; [done|]. by rewrite Ec.
  - simpl in *. by rewrite IH.
Qed.

Lemma trimEnd_last s c :
  last (Str.trimEnd s) = Some c → Char.is_space c = false.
Proof.
  induction s as [|a s IH]; simpl; [done|].
  destruct (Str.trimEnd s) as [|d r] eqn:E.
  - destruct (Char.is_space a) eqn:Ea; simpl; [done|]. congruence.
  - intros H. apply IH. by rewrite last_cons_cons in H.
Qed.

Lemma trimEnd_id s :
  (∀ c, last s = Some c → Char.is_space c = false) → Str.trimEnd s = s.
Proof.
  induction s as [|a s IH]; simpl; [done|]. intros H.
  destruct s as [|b s].
  - simpl. by rewrite (H a).
  - rewrite IH; [done|]. intros c Hc. apply H. by rewrite last_cons_cons.
Qed.

Lemma trimStart_head s c :
  head (Str.trimStart s) = Some c → Char.is_space c = false.
Proof.
  induction s as [|a s IH]; simpl; [done|].
  destruct (Char.is_space a) eqn:Ea; [done|]. simpl. congruence.
Qed.

Lemma trimEnd_head_inv s c : head (Str.trimEnd s) = Some c → head s = Some c.
Proof.
  destruct s as [|a s]; simpl; [done|].
  destruct (Str.trimEnd s); [destruct (Char.is_space a)|]; simpl; congruence.
Qed.

Lemma trimStart_id s :
  (∀ c, head s = Some c → Char.is_space c = false) → Str.trimStart s = s.
Proof.
  destruct s as [|a s]; simpl; [done|]. intros H. by rewrite (H a).
Qed.

Lemma trim_head s c : head (Str.trim s) = Some c → Char.is_space c = false.
Proof. intros H%trimEnd_head_inv. by eapply trimStart_head. Qed.

Lemma trim_last s c : last (Str.trim s) = Some c → Char.is_space c = false.
Proof. apply trimEnd_last. Qed.

Lemma trim_idemp s : Str.trim (Str.trim s) = Str.trim s.
Proof.
  unfold Str.trim at 1. rewrite trimStart_id; [apply trimEnd_idemp|].
  intros c. apply trim_head.
Qed.

Lemma edge_space_trim s : Str.edge_space (Str.trim s) = false.
Proof.
  unfold Str.edge_space. apply orb_false_intro.
  - destruct (head (Str.trim s)) as [c|] eqn:E; [|done].
    by apply trim_head in E.
  - destruct (last (Str.trim s)) as [c|] eqn:E; [|done].
    by apply trim_last in E.
Qed.

(** A text without whitespace at its ends is its own trimmed form. *)
Lemma trim_id s : Str.edge_space s = false → Str.trim s = s.
Proof.
  unfold Str.edge_space. intros [Hh Hl]%orb_false_elim.
  unfold Str.trim. rewrite trimStart_id.
  - apply trimEnd_id. intros c Hc. by rewrite Hc in Hl.
  - intros c Hc. by rewrite Hc in Hh.
Qed.

Lemma has_digit_trimStart s :
  Str.has_digit (Str.trimStart s) = true → Str.has_digit s = true.
Proof.
  induction s as [|c s IH]; simpl; [done|].
  destruct (Char.is_space c); [|done]. intros H. rewrite IH by done.
  apply orb_true_r.
Qed.

Lemma has_digit_trimEnd s :
  Str.has_digit (Str.trimEnd s) = true → Str.has_digit s = true.
Proof.
  induction s as [|c s IH]; simpl; [done|].
  destruct (Str.trimEnd s) as [|d r].
  - destruct (Char.is_space c); simpl; [done|]. rewrite orb_false_r.
    by intros ->.
  - intros H. change (Char.is_digit c || Str.has_digit (d :: r) = true) in H.
    apply orb_prop in H as [->|H]; [done|]. rewrite IH by done.
    apply orb_true_r.
Qed.

Lemma has_digit_trim s :
  Str.has_digit (Str.trim s) = true → Str.has_digit s = true.
Proof. intros H. by apply has_digit_trimStart, has_digit_trimEnd. Qed.

End TrimFacts.

(** ** Splitting and joining *)
Section PiecesFacts.
Variable stop : ascii → bool.

Lemma pieces_cons_stop c s :
  stop c = true → Str.pieces stop (c :: s) = [] :: Str.pieces stop s.
Proof. intros H. simpl. by rewrite H. Qed.

Lemma pieces_inv s : ∃ p ps, Str.pieces stop s = p :: ps.
Proof.
  induction s as [|c s (p & ps & IH)]; simpl; [by eauto|].
  destruct (stop c); rewrite ?IH; eauto.
Qed.

Lemma pieces_cons_go c s p ps :
  stop c = false → Str.pieces stop s = p :: ps →
  Str.pieces stop (c :: s) = (c :: p) :: ps.
Proof. intros H E. simpl. by rewrite H, E. Qed.

Lemma pieces_whole s :
  forallb (fun c => negb (stop c)) s = true → Str.pieces stop s = [s].
Proof.
  induction s as [|c s IH]; simpl; [done|].
  intros [Hc Hs]%andb_prop. apply negb_true_iff in Hc.
  by rewrite Hc, IH.
Qed.

Lemma pieces_digit s p :
  p ∈ Str.pieces stop s → Str.has_digit p = true → Str.has_digit s = true.
Proof.
  revert p. induction s as [|c s IH]; intros p; simpl.
  - by intros ->%list_elem_of_singleton.
  - destruct (stop c) eqn:Hc.
    + intros [->|Hp]%elem_of_cons Hd; [done|].
      rewrite (IH p Hp Hd). apply orb_true_r.
    + destruct (pieces_inv s) as (q & qs & E). rewrite E in *.
      intros [->|Hp]%elem_of_cons Hd.
      * simpl in Hd. apply orb_prop in Hd as [->|Hd]; [done|].
        rewrite (IH q); [apply orb_true_r|left|done].
      * rewrite (IH p); [apply orb_true_r|by right|done].
Qed.

End PiecesFacts.

Section SplitFacts.

Lemma join_cons_head sep c p ps :
  Str.join sep ((c :: p) :: ps) = c :: Str.join sep (p :: ps).
Proof. by destruct ps. Qed.

(** Joining the pieces with the separator gives the text back. *)
Lemma join_split sep s : Str.join [sep] (Str.split sep s) = s.
Proof.
  unfold Str.split. induction s as [|c s IH]; [done|].
  destruct (pieces_inv (fun c => bool_decide (c = sep)) s) as (p & ps & E).
  rewrite E in IH. simpl. rewrite E. case_bool_decide as Hc.
  - subst c. simpl in *. by rewrite IH.
  - rewrite join_cons_head. by rewrite IH.
Qed.

(** Cutting at a larger class of characters cuts the pieces further. *)
Lemma pieces_refine (P Q : ascii → bool) s :
  (∀ c, P c = true → Q c = true) →
  Str.pieces Q s = flat_map (Str.pieces Q) (Str.pieces P s).
Proof.
  intros HPQ. induction s as [|c s IH]; [done|].
  destruct (pieces_inv P s) as (p & ps & E). rewrite E in IH. simpl in IH.
  destruct (pieces_inv Q p) as (q & qs & Eq). rewrite Eq in IH. simpl in IH.
  destruct (P c) eqn:HP.
  - rewrite (pieces_cons_stop P), (pieces_cons_stop Q), E by auto.
    simpl. by rewrite IH, Eq.
  - rewrite (pieces_cons_go P _ _ _ _ HP E). simpl flat_map.
    destruct (Q c) eqn:HQ.
    + rewrite (pieces_cons_stop Q c s) by done. by rewrite IH, Eq.
    + rewrite (pieces_cons_go Q _ _ _ _ HQ IH). by rewrite Eq.
Qed.

End SplitFacts.

(** ** Tokens of the country column *)
Section TokenFacts.

Lemma tokens_trimStart s :
  CountrySpec.tokens (Str.trimStart s) = CountrySpec.tokens s.
Proof.
  unfold CountrySpec.tokens, CountrySpec.ws_pieces.
  induction s as [|c s IH]; [done|]. simpl Str.trimStart.
  destruct (Char.is_space c) eqn:Hc; [|done].
  by rewrite (pieces_cons_stop _ c s Hc).
Qed.

(** Trimming the end keeps the first piece and the non-empty later ones. *)
Lemma pieces_trimEnd s :
  ∃ hd tl tl',
    Str.pieces Char.is_space s = hd :: tl
    ∧ Str.pieces Char.is_space (Str.trimEnd s) = hd :: tl'
    ∧ List.filter CountrySpec.nonempty tl
      = List.filter CountrySpec.nonempty tl'.
Proof.
  induction s as [|c s (hd & tl & tl' & E & E' & F)];
    [by exists [], [], []|].
  simpl Str.trimEnd. destruct (Str.trimEnd s) as [|d r] eqn:Er.
  - simpl in E'. injection E' as <- <-.
    destruct (Char.is_space c) eqn:Hc.
    + exists [], ([] :: tl), []. rewrite (pieces_cons_stop _ c s Hc), E.
      repeat split; done.
    + exists [c], tl, []. rewrite (pieces_cons_go _ c s _ _ Hc E).
      repeat split; [|done]. simpl. by rewrite Hc.
  - destruct (Char.is_space c) eqn:Hc.
    + exists [], (hd :: tl), (hd :: tl').
      rewrite (pieces_cons_stop _ c s Hc), (pieces_cons_stop _ c _ Hc), E, E'.
      repeat split. simpl. by rewrite F.
    + exists (c :: hd), tl, tl'.
      rewrite (pieces_cons_go _ c s _ _ Hc E),
        (pieces_cons_go _ c _ _ _ Hc E').
      done.
Qed.

Lemma tokens_trimEnd s :
  CountrySpec.tokens (Str.trimEnd s) = CountrySpec.tokens s.
Proof.
  unfold CountrySpec.tokens, CountrySpec.ws_pieces.
  destruct (pieces_trimEnd s) as (hd & tl & tl' & -> & -> & F).
  simpl. by rewrite F.
Qed.

Lemma tokens_trim s : CountrySpec.tokens (Str.trim s) = CountrySpec.tokens s.
Proof. unfold Str.trim. by rewrite tokens_trimEnd, tokens_trimStart. Qed.

Lemma upper_no_space p :
  forallb (fun c => negb (Char.is_space c)) (Str.toUpperCase p) = true →
  forallb (fun c => negb (Char.is_space c)) p = true.
Proof.
  induction p as [|c p IH]; simpl; [done|].
  intros [Hc Hp]%andb_prop. rewrite IH by done. rewrite andb_true_r.
  destruct (Char.is_space c) eqn:E; [|done].
  by rewrite (is_space_upper c E), E in Hc.
Qed.

(** A word that upper-cases to MOBILE or FIXED is a whitespace-separated
    token of every text of which it is a space-separated piece. *)
Lemma kind_word_token text part :
  part ∈ Str.split " " text → CountrySpec.is_kind_word part = true →
  part ∈ CountrySpec.tokens text.
Proof.
  intros Hin Hk.
  assert (forallb (fun c => negb (Char.is_space c)) part = true
          ∧ part ≠ []) as [Hns Hne].
  { unfold CountrySpec.is_kind_word, Str.array_includes in Hk. simpl in Hk.
    rewrite orb_false_r in Hk.
    split.
    - apply upper_no_space.
      apply orb_prop in Hk as [Hk|Hk]; apply bool_decide_eq_true in Hk;
        by rewrite <- Hk.
    - intros ->. by vm_compute in Hk. }
  unfold CountrySpec.tokens, CountrySpec.ws_pieces.
  apply list_elem_of_In, filter_In. split; [|by destruct part].
  rewrite (pieces_refine (fun c => bool_decide (c = " "%char)) Char.is_space).
  - apply in_flat_map. exists part. split; [by apply list_elem_of_In|].
    rewrite pieces_whole by done. by left.
  - intros c ->%bool_decide_eq_true. done.
Qed.

(** The loop keeps the longest prefix without a terminator. *)
Lemma collect_prefix parts acc :
  ∃ accepted rest,
    parts = accepted ++ rest
    ∧ Forall (fun p => is_terminator p = false) accepted
    ∧ (∀ t, head rest = Some t → is_terminator t = true)
    ∧ collect_country_parts parts acc = acc ++ accepted.
Proof.
  revert acc. induction parts as [|part parts IH]; intros acc.
  - exists [], []. simpl. rewrite app_nil_r.
    repeat split; [constructor|done].
  - simpl. destruct (is_terminator part) eqn:Ht.
    + exists [], (part :: parts). rewrite app_nil_r.
      repeat split; [constructor|]. by intros t [= <-].
    + destruct (IH (acc ++ [part])) as (a & r & -> & Ha & Hr & ->).
      exists (part :: a), r. rewrite <- app_assoc.
      repeat split; [|done]. by constructor.
Qed.

Lemma collect_all parts acc :
  Forall (fun p => is_terminator p = false) parts →
  collect_country_parts parts acc = acc ++ parts.
Proof.
  intros H. revert acc.
  induction H as [|p parts Hp _ IH]; intros acc; simpl.
  - by rewrite app_nil_r.
  - by rewrite Hp, IH, <- app_assoc.
Qed.

End TokenFacts.

(** ** Masking *)
Section MaskFacts.

Lemma maskNumber_short number :
  length (Str.trim number) ≤ 7 → maskNumber number = Str.trim number.
Proof.
  intros H. unfold maskNumber.
  by destruct (Nat.ltb_spec 7 (length (Str.trim number))); [lia|].
Qed.

Lemma maskNumber_long number :
  7 < length (Str.trim number) →
  maskNumber number =
    take 3 (Str.trim number) ++ str "***"
    ++ drop (length (Str.trim number) - 4) (Str.trim number).
Proof.
  intros H. unfold maskNumber, Str.substring, Str.substring_from.
  by destruct (Nat.ltb_spec 7 (length (Str.trim number))); [|lia].
Qed.

Lemma maskNumber_trim number :
  maskNumber (Str.trim number) = maskNumber number.
Proof. unfold maskNumber. by rewrite trim_idemp. Qed.

Lemma edge_space_mask (t : jsstring) :
  7 < length t → Str.edge_space t = false →
  Str.edge_space (take 3 t ++ str "***" ++ drop (length t - 4) t) = false.
Proof.
  intros Hlen. unfold Str.edge_space.
  intros [Hh Hl]%orb_false_elim. apply orb_false_intro.
  - destruct t as [|c t]; [simpl in Hlen; lia|]. exact Hh.
  - rewrite !last_app.
    assert (last (drop (length t - 4) t) = last t) as ->.
    { rewrite !last_lookup, lookup_drop, length_drop. f_equal. lia. }
    by destruct (last t).
Qed.

Lemma maskNumber_edges number : Str.edge_space (maskNumber number) = false.
Proof.
  destruct (Nat.le_gt_cases (length (Str.trim number)) 7) as [H|H].
  - rewrite maskNumber_short by done. apply edge_space_trim.
  - rewrite maskNumber_long by done.
    apply edge_space_mask; [done|apply edge_space_trim].
Qed.

End MaskFacts.

(** ** The play pattern *)
Section PatternFacts.
Import PlayPattern.

Lemma startsWith_app p s : Str.startsWith p s = true → s = p ++ drop (length p) s.
Proof.
  revert s. induction p as [|a p IH]; intros [|b s]; simpl; try done.
  intros [->%bool_decide_eq_true H]%andb_prop. f_equal. by apply IH.
Qed.

Lemma startsWith_refl p r : Str.startsWith p (p ++ r) = true.
Proof. induction p as [|a p IH]; simpl; [done|]. by rewrite bool_decide_eq_true_2. Qed.

Lemma literal_inv p s r : literal p s = Some r → s = p ++ r.
Proof.
  unfold literal. destruct (Str.startsWith p s) eqn:E; [|done].
  intros [= <-]. by apply startsWith_app.
Qed.

Lemma literal_app p r : literal p (p ++ r) = Some r.
Proof. unfold literal. by rewrite startsWith_refl, drop_app_length. Qed.

Lemma class_inv P s r : class P s = Some r → ∃ c, s = c :: r ∧ P c = true.
Proof.
  destruct s as [|c s]; simpl; [done|]. destruct (P c) eqn:E; [|done].
  intros [= <-]. eauto.
Qed.

Lemma non_quotes_inv s g r :
  non_quotes s = (g, r) →
  s = g ++ r ∧ Forall (fun c => Char.is_quote c = false) g.
Proof.
  revert g r. induction s as [|c s IH]; intros g r; simpl.
  - intros [= <- <-]. by split.
  - destruct (Char.is_quote c) eqn:E.
    + intros [= <- <-]. by split.
    + destruct (non_quotes s) as [g' r']. intros [= <- <-].
      destruct (IH g' r' eq_refl) as [-> H]. split; [done|]. by constructor.
Qed.

Lemma non_quotes_app g q r :
  Forall (fun c => Char.is_quote c = false) g → Char.is_quote q = true →
  non_quotes (g ++ q :: r) = (g, q :: r).
Proof.
  intros Hg Hq. induction Hg as [|c g Hc _ IH]; simpl.
  - by rewrite Hq.
  - by rewrite Hc, IH.
Qed.

Lemma group_inv s g r :
  group s = Some (g, r) →
  s = g ++ r ∧ g ≠ [] ∧ Forall (fun c => Char.is_quote c = false) g.
Proof.
  unfold group. destruct (non_quotes s) as [g' r'] eqn:E.
  apply non_quotes_inv in E as [-> H].
  destruct g'; [done|]. intros [= <- <-]. done.
Qed.

Lemma group_app g q r :
  g ≠ [] → Forall (fun c => Char.is_quote c = false) g →
  Char.is_quote q = true → group (g ++ q :: r) = Some (g, q :: r).
Proof.
  intros Hne Hg Hq. unfold group. rewrite non_quotes_app by done.
  by destruct g.
Qed.

Lemma spaces_inv s :
  ∃ ws, s = ws ++ spaces s ∧ Forall (fun c => Char.is_space c = true) ws.
Proof.
  induction s as [|c s (ws & IH & Hws)]; simpl.
  - by exists [].
  - destruct (Char.is_space c) eqn:E.
    + exists (c :: ws). split; [simpl; by f_equal|by constructor].
    + by exists [].
Qed.

Lemma spaces_app ws q r :
  Forall (fun c => Char.is_space c = true) ws → Char.is_space q = false →
  spaces (ws ++ q :: r) = q :: r.
Proof.
  intros Hws Hq. induction Hws as [|c ws Hc _ IH]; simpl.
  - by rewrite Hq.
  - by rewrite Hc.
Qed.

Lemma match_here_sound s did uuid :
  match_here s = Some (did, uuid) → matches s did uuid.
Proof.
  unfold match_here. intros H.
  apply bind_Some in H as (s1 & ->%literal_inv & H).
  apply bind_Some in H as (s2 & (q1 & -> & Hq1)%class_inv & H).
  apply bind_Some in H as ([d s3] & (-> & Hd & Hdq)%group_inv & H).
  apply bind_Some in H as (s4 & (q2 & -> & Hq2)%class_inv & H).
  apply bind_Some in H as (s5 & ->%literal_inv & H).
  apply bind_Some in H as (s7 & (q3 & E7 & Hq3)%class_inv & H).
  destruct (spaces_inv s5) as (ws & E6 & Hws). rewrite E7 in E6. subst s5.
  apply bind_Some in H as ([u s8] & (-> & Hu & Huq)%group_inv & H).
  apply bind_Some in H as (s9 & (q4 & -> & Hq4)%class_inv & H).
  apply bind_Some in H as (s10 & ->%literal_inv & H).
  injection H as <- <-.
  by apply (matches_at [] q1 d q2 ws q3 u q4 s10).
Qed.

Lemma class_cons P c r : P c = true → class P (c :: r) = Some r.
Proof. intros H. simpl. by rewrite H. Qed.

Lemma bind_Some_l {A B} (x : A) (f : A → option B) : Some x ≫= f = f x.
Proof. done. Qed.

Lemma match_here_complete q1 did q2 ws q3 uuid q4 post :
  Char.is_quote q1 = true → Char.is_quote q2 = true →
  Char.is_quote q3 = true → Char.is_quote q4 = true →
  did ≠ [] → Forall (fun c => Char.is_quote c = false) did →
  uuid ≠ [] → Forall (fun c => Char.is_quote c = false) uuid →
  Forall (fun c => Char.is_space c = true) ws →
  match_here (str "Play(" ++ [q1] ++ did ++ [q2] ++ str "," ++ ws
              ++ [q3] ++ uuid ++ [q4] ++ str ")" ++ post)
  = Some (did, uuid).
Proof.
  intros Hq1 Hq2 Hq3 Hq4 Hd Hdq Hu Huq Hws. unfold match_here.
  rewrite literal_app, bind_Some_l. cbn [app].
  rewrite class_cons, bind_Some_l by done.
  rewrite group_app, bind_Some_l by done.
  rewrite class_cons, bind_Some_l by done.
  rewrite literal_app, bind_Some_l.
  rewrite spaces_app by auto using quote_not_space.
  rewrite class_cons, bind_Some_l by done.
  rewrite group_app, bind_Some_l by done.
  rewrite class_cons, bind_Some_l by done.
  by rewrite literal_app, bind_Some_l.
Qed.

Lemma matches_cons c s did uuid : matches s did uuid → matches (c :: s) did uuid.
Proof. intros [pre ????????]. by apply (matches_at (c :: pre)). Qed.

Lemma exec_unfold s :
  exec s = match match_here s with
           | Some m => Some m
           | None => match s with [] => None | _ :: s' => exec s' end
           end.
Proof. by destruct s. Qed.

Lemma exec_sound s did uuid : exec s = Some (did, uuid) → matches s did uuid.
Proof.
  induction s as [|c s IH]; rewrite exec_unfold.
  - by vm_compute.
  - destruct (match_here (c :: s)) as [[d u]|] eqn:E.
    + intros [= <- <-]. by apply match_here_sound.
    + intros H. by apply matches_cons, IH.
Qed.

Lemma exec_complete s did uuid : matches s did uuid → is_Some (exec s).
Proof.
  intros [pre q1 d q2 ws q3 u q4 post Hq1 Hq2 Hq3 Hq4 Hd Hdq Hu Huq Hws].
  pose proof (match_here_complete q1 d q2 ws q3 u q4 post
                Hq1 Hq2 Hq3 Hq4 Hd Hdq Hu Huq Hws) as Hm.
  induction pre as [|c pre IH]; rewrite exec_unfold.
  - rewrite app_nil_l, Hm. by eexists.
  - destruct (match_here ((c :: pre) ++ _)); [by eexists|]. exact IH.
Qed.

Lemma exec_None s : exec s = None ↔ ∀ did uuid, ¬ matches s did uuid.
Proof.
  split.
  - intros H did uuid Hm. apply exec_complete in Hm as [m Hm]. congruence.
  - intros H. destruct (exec s) as [[did uuid]|] eqn:E; [|done].
    by apply exec_sound, H in E.
Qed.
End PatternFacts.

(** ** The poller *)
Section PollerFacts.
Import Poller.

Lemma seen_false st c : seen st c = false → c ∉ processedCalls st.
Proof. unfold seen. by intros ?%bool_decide_eq_false. Qed.

Lemma row_callback_extends raises row st :
  extends st (row_callback raises row st).1.
Proof.
  unfold row_callback.
  destruct (2 <? length (columns row)); [|constructor].
  set (cd := callData_of row).
  destruct (seen st (cliNumber cd)) eqn:Hs; [constructor|].
  apply seen_false in Hs.
  assert (∀ evs (r : Completion),
    Forall (fun e => event_cli e = cliNumber cd ∧ marks (cliNumber cd) e = false) evs →
    count (notifies (cliNumber cd)) evs ≤ 1 →
    count (schedules (cliNumber cd)) evs ≤ 1 →
    extends st ({| processedCalls := {[cliNumber cd]} ∪ processedCalls st;
                   trace := (trace st ++ [Marked (cliNumber cd)]) ++ evs |}, r).1)
    as Hfresh.
  { intros evs r ???. simpl. rewrite <- app_assoc. by constructor. }
  assert (∀ r : Completion, extends st (mark (cliNumber cd) st, r).1) as Hmark.
  { intros r. unfold mark. specialize (Hfresh [] r). rewrite app_nil_r in Hfresh.
    apply Hfresh; [constructor|unfold count; simpl; lia..]. }
  destruct (_ && _).
  - destruct (PlayPattern.exec _) as [[did uuid]|]; [|apply Hmark].
    destruct raises; unfold emit, mark; simpl.
    + apply (Hfresh [_] Thrown); [repeat constructor| |]; unfold count; simpl;
        rewrite ?bool_decide_eq_true_2 by done; simpl; lia.
    + rewrite <- (app_assoc _ [_] [_]).
      apply (Hfresh [_; _] Normal); [repeat constructor| |]; unfold count; simpl;
        rewrite ?bool_decide_eq_true_2 by done; simpl; lia.
  - destruct (is_FAILED _); [|apply Hmark].
    destruct raises; unfold emit, mark; simpl.
    + apply (Hfresh [_] Thrown); [repeat constructor| |]; unfold count; simpl;
        rewrite ?bool_decide_eq_true_2 by done; simpl; lia.
    + apply (Hfresh [_] Normal); [repeat constructor| |]; unfold count; simpl;
        rewrite ?bool_decide_eq_true_2 by done; simpl; lia.
Qed.

Lemma count_app p l l' : count p (l ++ l') = count p l + count p l'.
Proof. unfold count. by rewrite List.filter_app, length_app. Qed.

Lemma count_none p l : (∀ e, e ∈ l → p e = false) → count p l = 0.
Proof.
  unfold count. induction l as [|e l IH]; [done|]. intros H. simpl.
  rewrite (H e) by left. apply IH. intros e' He'. apply H. by right.
Qed.

Lemma marks_cli c e : marks c e = true → event_cli e = c.
Proof. destruct e; simpl; try done. by intros ?%bool_decide_eq_true. Qed.

Lemma notifies_cli c e : notifies c e = true → event_cli e = c.
Proof. destruct e; simpl; try done; by intros ?%bool_decide_eq_true. Qed.

Lemma schedules_cli c e : schedules c e = true → event_cli e = c.
Proof. destruct e; simpl; try done; by intros ?%bool_decide_eq_true. Qed.

Lemma dispatches_cli c e : dispatches c e = true → event_cli e = c.
Proof.
  unfold dispatches. intros [H|H]%orb_prop;
    [by apply notifies_cli|by apply schedules_cli].
Qed.

(** A call that is not in the store has no event in the trace. *)
Lemma count_unseen st c p :
  Inv st → c ∉ processedCalls st → (∀ e, p e = true → event_cli e = c) →
  count p (trace st) = 0.
Proof.
  intros HI Hc Hp. apply count_none. intros e He.
  destruct (p e) eqn:E; [|done]. apply Hp in E. subst c.
  by apply (inv_known _ HI) in He.
Qed.

(** Events about the call [c] are not counted for another call. *)
Lemma count_other c c' p evs :
  c' ≠ c → (∀ e, p e = true → event_cli e = c') →
  Forall (fun e => event_cli e = c ∧ marks c e = false) evs →
  count p (Marked c :: evs) = 0.
Proof.
  intros Hne Hp Hevs. apply count_none. intros e [->|He]%elem_of_cons.
  - destruct (p (Marked c)) eqn:E; [|done]. apply Hp in E. by simpl in E.
  - rewrite Forall_forall in Hevs. destruct (Hevs _ He) as [Hc _].
    destruct (p e) eqn:E; [|done]. apply Hp in E. congruence.
Qed.

Lemma Inv_init : Inv init.
Proof.
  split; simpl.
  - by intros e ?%elem_of_nil.
  - intros c. unfold count. simpl. lia.
  - intros c [|??] ???; done.
Qed.

Lemma Inv_extends st st' : Inv st → extends st st' → Inv st'.
Proof.
  intros HI [|c evs Hc Hevs Hn Hs]; [done|].
  split; simpl.
  - intros e [He|[->|He]%elem_of_cons]%elem_of_app.
    + apply (inv_known _ HI) in He. set_solver.
    + set_solver.
    + rewrite Forall_forall in Hevs. destruct (Hevs _ He) as [Hc' _].
      rewrite Hc'. set_solver.
  - intros c'. rewrite !count_app.
    destruct (decide (c' = c)) as [->|Hne].
    + rewrite !(count_unseen st c) by auto using marks_cli, notifies_cli, schedules_cli.
      assert (count (marks c) evs = 0) as Hm.
      { apply count_none. intros e He. rewrite Forall_forall in Hevs.
        by destruct (Hevs _ He). }
      unfold count in *. simpl. rewrite bool_decide_eq_true_2 by done.
      simpl. lia.
    + rewrite !(count_other c c') by auto using marks_cli, notifies_cli, schedules_cli.
      destruct (inv_once _ HI c') as (? & ? & ?). lia.
  - intros c' l1 e l2 Heq Hd.
    apply app_eq_inv in Heq as [(k & Hk & Hl)|(k & -> & Hl)].
    + destruct k as [|e' k]; simpl in Hl.
      * injection Hl as -> _. done.
      * injection Hl as <- _. by apply (inv_order _ HI c' l1 e k).
    + destruct k as [|m k]; simpl in Hl.
      * injection Hl as <- _. done.
      * injection Hl as <- Hl. apply elem_of_app. right.
        assert (e ∈ evs) as He by (rewrite Hl; set_solver).
        rewrite Forall_forall in Hevs. destruct (Hevs _ He) as [Hc' _].
        apply dispatches_cli in Hd. rewrite <- Hd, Hc'. by left.
Qed.

Lemma Inv_row_callback raises row st :
  Inv st → Inv (row_callback raises row st).1.
Proof. intros HI. eapply Inv_extends, row_callback_extends. done. Qed.

Lemma Inv_each raises i rows st : Inv st → Inv (each raises i rows st).1.
Proof.
  revert i st. induction rows as [|row rows IH]; intros i st HI; [done|].
  simpl. pose proof (Inv_row_callback (raises i) row st HI) as H.
  destruct (row_callback (raises i) row st) as [st' []]; [by apply IH|done].
Qed.

Lemma Inv_tick raises page st : Inv st → Inv (tick raises page st).
Proof. destruct page; [apply Inv_each|done]. Qed.

Lemma Inv_run_from t raises pages st : Inv st → Inv (run_from t raises pages st).
Proof.
  revert t st. induction pages as [|page pages IH]; intros t st HI; [done|].
  simpl. by apply IH, Inv_tick.
Qed.

(** The store only grows. *)
Lemma extends_subseteq st st' :
  extends st st' → processedCalls st ⊆ processedCalls st'.
Proof. intros [|]; simpl; set_solver. Qed.

Lemma each_subseteq raises i rows st :
  processedCalls st ⊆ processedCalls (each raises i rows st).1.
Proof.
  revert i st. induction rows as [|row rows IH]; intros i st; [done|].
  simpl. pose proof (extends_subseteq _ _ (row_callback_extends (raises i) row st)) as H.
  destruct (row_callback (raises i) row st) as [st' []]; [|done].
  etrans; [exact H|apply IH].
Qed.

Lemma run_from_subseteq t raises pages st :
  processedCalls st ⊆ processedCalls (run_from t raises pages st).
Proof.
  revert t st. induction pages as [|page pages IH]; intros t st; [done|].
  simpl. etrans; [|apply IH]. destruct page; [apply each_subseteq|done].
Qed.

End PollerFacts.

(** ** The audio pipeline *)
Section WorkerFacts.
Import Eff Worker.
Variable path_join : jsstring → jsstring → jsstring.
Variable env : Env.
Variable callData : Poller.CallData.
Variable cookies : list Cookie.
Variable notificationMessageId : option nat.

Local Abbreviation cli := (Poller.cliNumber callData).
Local Abbreviation wav := (filePath_of path_join env (Poller.cliNumber callData)).
Local Abbreviation mp3 :=
  (filePathMp3_of path_join env (Poller.cliNumber callData)).
Local Abbreviation header := (cookie_header cookies).
Local Abbreviation worker :=
  (processCallWorker path_join env callData cookies notificationMessageId).

Lemma bind_run {A B} (m : W A) (k : A → W B) d es d' a :
  m d = (es, d', Ok a) →
  bind m k d = (es ++ effects (k a d'), world (k a d'), result (k a d')).
Proof. intros H. unfold bind. rewrite H. by destruct (k a d') as [[??]?]. Qed.

Lemma bind_throw {A B} (m : W A) (k : A → W B) d es d' msg :
  m d = (es, d', Throw msg) → bind m k d = (es, d', Throw msg).
Proof. intros H. unfold bind. by rewrite H. Qed.

(** *** The steps that abort the rest *)

Lemma worker_no_url d :
  Poller.audioUrl callData = None →
  worker d = ([LogError (ProcessingError cli (str "invalid url"))], d, Ok tt).
Proof.
  intros Hu.
  unfold processCallWorker, worker_body, try_catch, bind, axios_get.
  by rewrite Hu.
Qed.

Lemma worker_fetch_fails d url :
  Poller.audioUrl callData = Some url → response env = None →
  worker d = ([HttpGet url header;
               LogError (ProcessingError cli (str "request failed"))],
              d, Ok tt).
Proof.
  intros Hu Hr.
  unfold processCallWorker, worker_body, try_catch, bind, axios_get.
  by rewrite Hu, Hr.
Qed.

Lemma worker_write_fails d url body :
  Poller.audioUrl callData = Some url → response env = Some body →
  write_ok env = false →
  worker d = ([HttpGet url header; WriteFile wav;
               LogError (ProcessingError cli (str "write failed"))],
              d, Ok tt).
Proof.
  intros Hu Hr Hw.
  unfold processCallWorker, worker_body, try_catch, bind, axios_get,
    writeFileSync.
  by rewrite Hu, Hr, Hw.
Qed.

Lemma worker_transcode_fails d url body :
  Poller.audioUrl callData = Some url → response env = Some body →
  write_ok env = true → ffmpeg_ok env = false →
  worker d =
    ([HttpGet url header; WriteFile wav; LogInfo AudioDownloaded;
      Transcode wav mp3; LogError FfmpegError;
      LogError (ProcessingError cli (str "ffmpeg error"))],
     {| files := (if ffmpeg_left_output env
                  then {[mp3]} ∪ ({[wav]} ∪ files d)
                  else {[wav]} ∪ files d) |},
     Ok tt).
Proof.
  intros Hu Hr Hw Hf.
  unfold processCallWorker, worker_body, try_catch, bind, axios_get,
    writeFileSync, transcode.
  rewrite Hu, Hr, Hw, Hf. by destruct (ffmpeg_left_output env).
Qed.

Lemma worker_caption_fails d url body :
  Poller.audioUrl callData = Some url → response env = Some body →
  write_ok env = true → ffmpeg_ok env = true → caption env = None →
  worker d =
    ([HttpGet url header; WriteFile wav; LogInfo AudioDownloaded;
      Transcode wav mp3; LogInfo ConvertedToMp3;
      LogError
        (ProcessingError cli (str "escapeMarkdownV2 is not defined"))],
     {| files := {[mp3]} ∪ ({[wav]} ∪ files d) |},
     Ok tt).
Proof.
  intros Hu Hr Hw Hf Hc.
  unfold processCallWorker, worker_body, try_catch, bind, axios_get,
    writeFileSync, transcode, build_caption.
  by rewrite Hu, Hr, Hw, Hf, Hc.
Qed.

(** *** The steps that do not *)

Lemma unlinkSync_present (p : jsstring) (fs : gset jsstring) :
  p ∈ fs →
  unlinkSync p {| files := fs |}
  = ([Unlink p], {| files := fs ∖ {[p]} |}, Ok tt).
Proof.
  intros H. unfold unlinkSync, bind, tell, get, put. simpl.
  by rewrite decide_True.
Qed.

Lemma unlinkSync_absent (p : jsstring) (fs : gset jsstring) :
  p ∉ fs →
  unlinkSync p {| files := fs |}
  = ([Unlink p], {| files := fs |}, Throw (str "ENOENT")).
Proof.
  intros H. unfold unlinkSync, bind, tell, get, put, throw. simpl.
  by rewrite decide_False.
Qed.

(** The two deletions at the end of the [try] block. *)
Lemma cleanup_run (p q : jsstring) (fs : gset jsstring) :
  p ∈ fs → q ∈ fs →
  (unlinkSync p >> unlinkSync q >> tell (LogInfo TempFilesDeleted))%eff
    {| files := fs |}
  = ([Unlink p; Unlink q]
     ++ (if decide (q = p) then [] else [LogInfo TempFilesDeleted]),
     {| files := fs ∖ {[p]} ∖ {[q]} |},
     if decide (q = p) then Throw (str "ENOENT") else Ok tt).
Proof.
  intros Hp Hq.
  rewrite (bind_run _ _ _ _ _ _ (unlinkSync_present p fs Hp)).
  destruct (decide (q = p)) as [->|E].
  - rewrite (bind_throw _ _ _ [Unlink p] {| files := fs ∖ {[p]} |}
               (str "ENOENT")).
    + unfold effects, world, result. simpl. do 3 f_equal. set_solver.
    + apply unlinkSync_absent. set_solver.
  - rewrite (bind_run _ _ _ [Unlink q] {| files := fs ∖ {[p]} ∖ {[q]} |} tt).
    + done.
    + apply unlinkSync_present. set_solver.
Qed.

Lemma sendAudio_run c file d :
  sendAudioToTelegramGroup env c file d
  = (send_effects env c file, d, Ok (sendAudio_ok env)).
Proof.
  unfold sendAudioToTelegramGroup, send_effects, try_catch, bind, tell,
    throw, ret.
  by destruct (sendAudio_ok env).
Qed.

Lemma retract_run d :
  ∃ b, match truthy notificationMessageId with
       | Some messageId => deleteTelegramMessage env messageId
       | None => ret false
       end d = (retract_effects env notificationMessageId, d, Ok b).
Proof.
  unfold retract_effects. destruct (truthy notificationMessageId) as [m|].
  - unfold deleteTelegramMessage, try_catch, bind, tell, throw, ret.
    destruct (deleteMessage_ok env); by eexists.
  - by eexists.
Qed.

(** Once the caption is built nothing stops the [try] block before the
    deletions: a failed delivery or retraction is logged by its helper and
    the block goes on. *)
Lemma body_reaches_cleanup fs url body c :
  Poller.audioUrl callData = Some url → response env = Some body →
  write_ok env = true → ffmpeg_ok env = true → caption env = Some c →
  worker_body path_join env callData cookies notificationMessageId
    {| files := fs |}
  = ([HttpGet url header; WriteFile wav; LogInfo AudioDownloaded;
      Transcode wav mp3; LogInfo ConvertedToMp3]
     ++ send_effects env c mp3
     ++ retract_effects env notificationMessageId
     ++ [Unlink wav; Unlink mp3]
     ++ (if decide (mp3 = wav) then [] else [LogInfo TempFilesDeleted]),
     {| files := ({[mp3]} ∪ ({[wav]} ∪ fs)) ∖ {[wav]} ∖ {[mp3]} |},
     if decide (mp3 = wav) then Throw (str "ENOENT") else Ok tt).
Proof.
  intros Hu Hr Hw Hf Hc. unfold worker_body.
  rewrite (bind_run _ _ _ [HttpGet url header] {| files := fs |} body)
    by (unfold axios_get, bind, tell, ret; by rewrite Hu, Hr).
  rewrite (bind_run _ _ _ [WriteFile wav] {| files := {[wav]} ∪ fs |} tt)
    by (unfold writeFileSync, bind, tell, add_file; by rewrite Hw).
  rewrite (bind_run _ _ _ [LogInfo AudioDownloaded]
             {| files := {[wav]} ∪ fs |} tt) by done.
  rewrite (bind_run _ _ _ [Transcode wav mp3; LogInfo ConvertedToMp3]
             {| files := {[mp3]} ∪ ({[wav]} ∪ fs) |} tt)
    by (unfold transcode, bind, tell, add_file; by rewrite Hf).
  rewrite (bind_run _ _ _ [] {| files := {[mp3]} ∪ ({[wav]} ∪ fs) |} c)
    by (unfold build_caption, ret; by rewrite Hc).
  rewrite (bind_run _ _ _ _ _ _ (sendAudio_run c _ _)).
  destruct (retract_run {| files := {[mp3]} ∪ ({[wav]} ∪ fs) |}) as [b Hb].
  rewrite (bind_run _ _ _ _ _ _ Hb).
  rewrite cleanup_run by set_solver.
  done.
Qed.

Lemma worker_reaches_cleanup fs url body c :
  Poller.audioUrl callData = Some url → response env = Some body →
  write_ok env = true → ffmpeg_ok env = true → caption env = Some c →
  worker {| files := fs |}
  = ([HttpGet url header; WriteFile wav; LogInfo AudioDownloaded;
      Transcode wav mp3; LogInfo ConvertedToMp3]
     ++ send_effects env c mp3
     ++ retract_effects env notificationMessageId
     ++ [Unlink wav; Unlink mp3;
         if decide (mp3 = wav)
         then LogError (ProcessingError cli (str "ENOENT"))
         else LogInfo TempFilesDeleted],
     {| files := fs ∖ {[wav]} ∖ {[mp3]} |},
     Ok tt).
Proof.
  intros Hu Hr Hw Hf Hc. unfold processCallWorker, try_catch.
  rewrite (body_reaches_cleanup fs url body c) by done.
  assert (({[mp3]} ∪ ({[wav]} ∪ fs)) ∖ {[wav]} ∖ {[mp3]}
          = fs ∖ {[wav]} ∖ {[mp3]}) as -> by set_solver.
  destruct (decide (mp3 = wav)); simpl; rewrite <- ?app_assoc; done.
Qed.

Lemma existsb_app_l {A} (p : A → bool) l l' :
  existsb p (l ++ l') = existsb p l || existsb p l'.
Proof. apply existsb_app. Qed.

(** A worker that does not reach the deletions stops within step 2, logs
    its error once, deletes nothing and keeps every file. *)
Lemma worker_aborted fs :
  reaches_cleanup env callData = false →
  result (worker {| files := fs |}) = Ok tt
  ∧ forallb (within 2) (effects (worker {| files := fs |})) = true
  ∧ existsb is_unlink (effects (worker {| files := fs |})) = false
  ∧ length (List.filter is_processing_error
              (effects (worker {| files := fs |}))) = 1
  ∧ fs ⊆ files (world (worker {| files := fs |})).
Proof.
  unfold reaches_cleanup.
  destruct (Poller.audioUrl callData) as [url|] eqn:Hu.
  2:{ intros _. rewrite worker_no_url by done. by repeat split. }
  destruct (response env) as [body|] eqn:Hr.
  2:{ intros _. rewrite (worker_fetch_fails _ url) by done.
      by repeat split. }
  destruct (write_ok env) eqn:Hw.
  2:{ intros _. rewrite (worker_write_fails _ url body) by done.
      by repeat split. }
  destruct (ffmpeg_ok env) eqn:Hf.
  2:{ intros _. rewrite (worker_transcode_fails _ url body) by done.
      repeat split; try done.
      unfold world. simpl. destruct (ffmpeg_left_output env); set_solver. }
  destruct (caption env) as [c|] eqn:Hc; [by rewrite !bool_decide_eq_true_2|].
  intros _. rewrite (worker_caption_fails _ url body) by done.
  repeat split; try done. unfold world. simpl. set_solver.
Qed.

(** A worker that reaches the deletions: every course ends there. *)
Lemma worker_completed :
  reaches_cleanup env callData = true →
  ∃ url body c,
    Poller.audioUrl callData = Some url ∧ response env = Some body
    ∧ write_ok env = true ∧ ffmpeg_ok env = true ∧ caption env = Some c.
Proof.
  unfold reaches_cleanup.
  intros ((((Hu%bool_decide_eq_true & Hr%bool_decide_eq_true)%andb_prop
            & Hw)%andb_prop & Hf)%andb_prop
          & Hc%bool_decide_eq_true)%andb_prop.
  destruct Hu as [url Hu], Hr as [body Hr], Hc as [c Hc]. by exists url, body, c.
Qed.

(** Files are deleted exactly by the workers that get that far. *)
Lemma worker_unlinks fs :
  existsb is_unlink (effects (worker {| files := fs |}))
  = reaches_cleanup env callData.
Proof.
  destruct (reaches_cleanup env callData) eqn:E.
  - destruct (worker_completed E) as (url & body & c & Hu & Hr & Hw & Hf & Hc).
    rewrite (worker_reaches_cleanup fs url body c) by done.
    unfold effects. simpl. rewrite !existsb_app_l. simpl.
    by rewrite !orb_true_r.
  - by apply worker_aborted.
Qed.

End WorkerFacts.

(** ** The login loop *)
Section LoginFacts.
Import Eff Login.

(** What a failing [try] block leaves behind: nothing when the launch
    failed, and else one more browser, open and held by [browser]. *)
Lemma attempt_body_throws e m msg :
  result (attempt_body e m) = Throw msg →
  (effects (attempt_body e m) = [] ∧ world (attempt_body e m) = m)
  ∨ (effects (attempt_body e m) = [Launched (next_browser m)]
     ∧ world (attempt_body e m)
       = {| next_browser := S (next_browser m);
            open_browsers := {[next_browser m]} ∪ open_browsers m;
            browser := Some (next_browser m) |}).
Proof.
  unfold attempt_body, launch, guard, bind, tell, get, put, ret, throw,
    effects, world, result.
  destruct (launch_ok e); simpl; [|by left].
  intros _. right.
  destruct (open_ok e); simpl; [|done].
  destruct (scan_inputs 0 (inputs e) None None) as [[?|] [?|]]; simpl; try done.
  destruct (typing_ok e); simpl; [|done].
  destruct (submit_control e); simpl.
  - destruct (click_ok e); simpl; [|done].
    destruct (Str.includes _ (currentUrl e)); simpl; [|done].
    destruct (pageContent e) as [content|]; simpl; [|done].
    destruct (_ || _); simpl; [|done].
    by destruct (live_cookies e).
  - destruct (sign_in_buttons e) as [k|]; simpl; [|done].
    destruct (0 <? k); simpl; [|done].
    destruct (click_ok e); simpl; [|done].
    destruct (Str.includes _ (currentUrl e)); simpl; [|done].
    destruct (pageContent e) as [content|]; simpl; [|done].
    destruct (_ || _); simpl; [|done].
    by destruct (live_cookies e).
Qed.
Lemma login_loop_failed_turn fuel n env a m msg :
  a < n → browser m = None →
  result (attempt_body (env a) m) = Throw msg →
  ∃ es m',
    failed_turn a msg m es m' ∧
    login_loop (S fuel) n env a m =
      if n <=? S a then (es, m', Ok (Some None))
      else (es ++ Retrying :: effects (login_loop fuel n env (S a) m'),
            world (login_loop fuel n env (S a) m'),
            result (login_loop fuel n env (S a) m')).
Proof.
  intros Ha Hb Hthrow.
  destruct (attempt_body_throws _ _ _ Hthrow) as [[Hes Hw]|[Hes Hw]];
    destruct (attempt_body (env a) m) as [[es w] r] eqn:E;
    unfold effects, world, result in *; simpl in *; subst es w r.
  - exists [AttemptFailed (S a) msg], m. split; [constructor|].
    destruct (Nat.ltb_spec a n); [|lia].
    unfold bind at 1, try_catch, bind at 1. rewrite E.
    unfold close_browser, bind, tell, get, put, ret. rewrite Hb. simpl.
    destruct (n <=? S a); [done|].
    by destruct (login_loop fuel n env (S a) m) as [[??]?].
  - eexists _, _. split; [apply failed_after_launch|].
    destruct (Nat.ltb_spec a n); [|lia].
    unfold bind at 1, try_catch, bind at 1. rewrite E.
    unfold close_browser, bind, tell, get, put, ret. simpl.
    destruct (n <=? S a); [done|].
    by destruct (login_loop fuel n env (S a) _) as [[??]?].
Qed.

Lemma failed_turn_machine a msg m es m' :
  well_formed m → browser m = None → failed_turn a msg m es m' →
  well_formed m' ∧ browser m' = None ∧ open_browsers m' = open_browsers m
  ∧ next_browser m ≤ next_browser m'.
Proof.
  intros Hwf Hb [|]; [by auto|]. simpl.
  assert (next_browser m ∉ open_browsers m) as Hfresh.
  { intros H%Hwf. lia. }
  repeat split; [|set_solver|lia].
  intros b. simpl. intros [[?%elem_of_singleton|Hin]%elem_of_union _]%elem_of_difference.
  - lia.
  - apply Hwf in Hin. lia.
Qed.
Lemma disciplined_closes events opened used b :
  disciplined events opened used → b ∈ opened → Closed b ∈ events.
Proof.
  revert opened used. induction events as [|e events IH]; intros o u; simpl.
  - set_solver.
  - destruct e as [b'|b'| |]; intros H Hb.
    + destruct H as (-> & _). set_solver.
    + destruct (decide (b' = b)) as [->|Hne]; [by left|].
      right. apply (IH _ _ H). set_solver.
    + right. by apply (IH _ _ H).
    + right. by apply (IH _ _ H).
Qed.

Lemma disciplined_split l1 b l2 opened used :
  disciplined (l1 ++ Launched b :: l2) opened used →
  open_after l1 opened = ∅ ∧ (b ∉ launched l1) ∧ (b ∉ used) ∧ Closed b ∈ l2.
Proof.
  revert opened used. induction l1 as [|e l1 IH]; intros o u; simpl.
  - intros (-> & Hu & H). repeat split; [set_solver|done|].
    apply (disciplined_closes _ _ _ _ H). set_solver.
  - destruct e as [b'|b'| |]; simpl.
    + intros (-> & Hu & H). destruct (IH _ _ H) as (Ho & Hl & Hu' & Hc).
      assert ({[b']} ∪ ∅ = ({[b']} : gset nat)) as -> by set_solver.
      repeat split; [done| |set_solver|done].
      intros [->|?]%elem_of_cons; [|done]. set_solver.
    + intros H. by apply IH in H.
    + intros H. by apply IH in H.
    + intros H. by apply IH in H.
Qed.

Lemma failed_turns_disciplined m a1 msg1 es1 m1 a2 msg2 es2 m2 :
  failed_turn a1 msg1 m es1 m1 → failed_turn a2 msg2 m1 es2 m2 →
  disciplined (es1 ++ Retrying :: es2) ∅ [].
Proof.
  intros [|] [|]; simpl; repeat split; try set_solver.
  intros [?|?%elem_of_nil]%elem_of_cons; [lia|done].
Qed.

End LoginFacts.

(** * The claims *)

(** ** Deduplication and dispatch *)
Section PollerClaims.
Import Poller.

(** C1: a call that has been marked is seen by every later check, whatever
    the poller does in between; in a run from the empty store every call is
    marked at most once, notified (detected or failed) at most once and
    scheduled for the audio pipeline at most once, over any number of
    turns and rows; and its mark stands in the trace before any event that
    dispatches it.  [raises] lets any dispatching call end with an
    exception, which abandons the scan: the bounds hold all the same. *)
Theorem dedup_dispatch_at_most_once
  (raises : nat → nat → bool) (pages : list (option (list Row)))
  (cli : jsstring) :
  (∀ st, seen (mark cli st) cli = true
         ∧ seen (run raises pages (mark cli st)) cli = true)
  ∧ count (marks cli) (trace (run raises pages init)) ≤ 1
  ∧ count (notifies cli) (trace (run raises pages init)) ≤ 1
  ∧ count (schedules cli) (trace (run raises pages init)) ≤ 1
  ∧ (∀ l1 e l2,
       trace (run raises pages init) = l1 ++ e :: l2 →
       dispatches cli e = true → Marked cli ∈ l1).
Proof.
  pose proof (Inv_run_from 0 raises pages init Inv_init) as HI.
  split; [|split; [apply (inv_once _ HI cli)|split; [apply (inv_once _ HI cli)|
    split; [apply (inv_once _ HI cli)|apply (inv_order _ HI cli)]]]].
  intros st. unfold seen. split; apply bool_decide_eq_true.
  - simpl. set_solver.
  - apply (run_from_subseteq 0 raises pages (mark cli st)). simpl. set_solver.
Qed.

(** The row of one call read three times over two scans: the worker is
    scheduled once, after the mark. *)
Lemma dedup_dispatch_at_most_once_witness :
  Marked (str "CLI-1") ∈
    [Marked (str "CLI-1");
     InstantNotification
       (with_audioUrl (sound_url (str "did-7") (str "uuid-9"))
          (callData_of Samples.live_row))].
Proof.
  refine (proj2 (proj2 (proj2 (proj2
    (dedup_dispatch_at_most_once
       (fun t i => false)
       [Some [Samples.live_row; Samples.live_row]; None;
        Some [Samples.live_row]]
       (str "CLI-1")))))
    _ (WorkerScheduled
         (with_audioUrl (sound_url (str "did-7") (str "uuid-9"))
            (callData_of Samples.live_row))) [] _ _).
  - vm_compute. reflexivity.
  - reflexivity.
Defined.

(** C2: a row not seen before, with a play control and a status other
    than FAILED, whose handler does not contain the two-argument play
    pattern: the callback marks the call and does nothing else, so no
    detected notification is sent and no worker is scheduled. *)
Theorem unmatched_handler_is_skipped
  (raises : bool) (row : Row) (st : State)
  (onclickAttr : jsstring) (others : list jsstring) :
  2 < length (columns row) →
  seen st (cliNumber (callData_of row)) = false →
  playButtons row = onclickAttr :: others →
  is_FAILED (callStatus_of row) = false →
  (∀ did uuid, ¬ PlayPattern.matches onclickAttr did uuid) →
  row_callback raises row st
    = (mark (cliNumber (callData_of row)) st, Normal)
  ∧ List.filter starts_audio (trace (row_callback raises row st).1)
    = List.filter starts_audio (trace st)
  ∧ seen (row_callback raises row st).1 (cliNumber (callData_of row)) = true.
Proof.
  intros Hcols Hseen Hplay Hstatus Hno.
  apply exec_None in Hno.
  assert (row_callback raises row st
          = (mark (cliNumber (callData_of row)) st, Normal)) as ->.
  { unfold row_callback.
    destruct (Nat.ltb_spec 2 (length (columns row))); [|lia].
    rewrite Hseen, Hplay, Hstatus. simpl. by rewrite Hno. }
  split; [done|]. simpl. split.
  - rewrite List.filter_app. simpl. by rewrite app_nil_r.
  - unfold seen. apply bool_decide_eq_true. simpl. set_solver.
Qed.

Lemma unmatched_handler_is_skipped_witness :
  row_callback false Samples.odd_row init
  = (mark (str "CLI-2") init, Normal).
Proof.
  refine (proj1 (unmatched_handler_is_skipped false Samples.odd_row init
                   (str "Play('did-7')") [] _ _ _ _ _)).
  - vm_compute. lia.
  - reflexivity.
  - reflexivity.
  - reflexivity.
  - apply exec_None. reflexivity.
Defined.

(** C3, as stated, fails: a row whose status is FAILED sends no failed-call
    notification when its call was seen before.  Here the call shows up
    as RINGING at the first scan and as failed at the second: it is marked
    once and never notified. *)
Lemma failed_row_seen_counterexample :
  is_FAILED (callStatus_of Samples.failed_row) = true
  ∧ trace (run (fun _ _ => false)
             [Some [Samples.ringing_row]; Some [Samples.failed_row]] init)
    = [Marked (str "CLI-3")]
  ∧ count (notifies (str "CLI-3"))
      (trace (run (fun _ _ => false)
                [Some [Samples.ringing_row]; Some [Samples.failed_row]]
                init)) = 0.
Proof. repeat split; by vm_compute. Qed.

(** C3, amended: the callback on a row whose status is FAILED never adds an
    event of the audio branch, with or without a play control; when the
    call was not seen before it marks the call and sends the failed-call
    notification, and when it was seen it does nothing. *)
Theorem failed_row_has_no_audio (raises : bool) (row : Row) (st : State) :
  2 < length (columns row) →
  is_FAILED (callStatus_of row) = true →
  List.filter starts_audio (trace (row_callback raises row st).1)
    = List.filter starts_audio (trace st)
  ∧ (seen st (cliNumber (callData_of row)) = false →
     (row_callback raises row st).1
     = emit (FailedNotification (callData_of row))
         (mark (cliNumber (callData_of row)) st))
  ∧ (seen st (cliNumber (callData_of row)) = true →
     row_callback raises row st = (st, Normal)).
Proof.
  intros Hcols Hfailed. unfold row_callback.
  destruct (Nat.ltb_spec 2 (length (columns row))); [|lia].
  rewrite Hfailed, andb_false_r.
  destruct (seen st (cliNumber (callData_of row))); [done|].
  split; [|split; [|done]].
  - destruct raises; simpl; rewrite !List.filter_app; simpl;
      by rewrite !app_nil_r.
  - by destruct raises.
Qed.

Lemma failed_row_has_no_audio_witness :
  (row_callback false Samples.failed_row init).1
  = emit (FailedNotification (callData_of Samples.failed_row))
      (mark (str "CLI-3") init).
Proof.
  refine (proj1 (proj2 (failed_row_has_no_audio false Samples.failed_row
                          init _ _)) _).
  - vm_compute. lia.
  - reflexivity.
  - reflexivity.
Defined.

End PollerClaims.

(** ** Country extraction and number masking *)
Section TextClaims.

(** C6, as stated, fails: the code cuts the text at space characters only,
    so a tab does not separate tokens.  The design document yields UK for
    this cell; the code yields the first space-separated piece whole. *)
Lemma country_tab_counterexample :
  Char.is_space Samples.tab = true
  ∧ CountrySpec.country Samples.tabbed_cell = str "UK"
  ∧ country_of_cell Samples.tabbed_cell
    = str "UK" ++ [Samples.tab] ++ str "MOBILE"
  ∧ country_of_cell Samples.tabbed_cell
    ≠ CountrySpec.country Samples.tabbed_cell.
Proof. repeat split. by vm_compute. Qed.

(** C6, amended: the country of a cell is computed from the trimmed text
    cut at every space character (pieces between two spaces may be empty,
    other whitespace does not cut).  The accepted pieces are the longest
    prefix in which none upper-cases to MOBILE or FIXED or contains a
    digit; they are joined with one space, and the trimmed text comes back
    whole when no piece was accepted.  The example of the design document
    holds. *)
Theorem country_extraction_by_spaces :
  (∀ cell : jsstring,
     ∃ accepted rest,
       Str.split " " (Str.trim cell) = accepted ++ rest
       ∧ Forall (fun p => is_terminator p = false) accepted
       ∧ match rest with
         | [] => True
         | t :: _ => is_terminator t = true
         end
       ∧ country_of_cell cell =
           match accepted with
           | [] => Str.trim cell
           | _ => Str.join (str " ") accepted
           end)
  ∧ country_of_cell (str "UNITED KINGDOM MOBILE 07123")
    = str "UNITED KINGDOM".
Proof.
  split; [|done]. intros cell.
  unfold country_of_cell, extractCountryFromTermination.
  destruct (collect_prefix (Str.split " " (Str.trim cell)) [])
    as (a & r & E & Ha & Hr & ->).
  exists a, r. repeat split; try done.
  - destruct r as [|t r]; [done|]. by apply Hr.
  - simpl. by destruct a.
Qed.

(** C7, as stated, fails: the argument is trimmed first, so a short input
    with spaces around it does not come back unchanged, and a long input
    that is short once trimmed is not masked. *)
Lemma maskNumber_padded_counterexample :
  length (str " 12345 ") ≤ 7
  ∧ maskNumber (str " 12345 ") ≠ str " 12345 "
  ∧ 7 < length (str "   123456   ")
  ∧ maskNumber (str "   123456   ")
    ≠ take 3 (str "   123456   ") ++ str "***"
      ++ drop (length (str "   123456   ") - 4) (str "   123456   ").
Proof.
  split; [vm_compute; lia|]. split; [by vm_compute|].
  split; [vm_compute; lia|by vm_compute].
Qed.

(** C7, amended: number masking works on the trimmed argument.  When that
    has at most 7 characters it is the result; when it is longer the result
    is its first 3 characters, three stars and its last 4 characters, ten
    characters in all.  An argument without whitespace at its ends and of
    length at most 7 comes back unchanged, and the example of the design
    document holds. *)
Theorem maskNumber_masks_trimmed :
  (∀ number : jsstring,
     length (Str.trim number) ≤ 7 → maskNumber number = Str.trim number)
  ∧ (∀ number : jsstring,
       7 < length (Str.trim number) →
       maskNumber number =
         take 3 (Str.trim number) ++ str "***"
         ++ drop (length (Str.trim number) - 4) (Str.trim number)
       ∧ length (maskNumber number) = 10)
  ∧ (∀ number : jsstring,
       Str.edge_space number = false → length number ≤ 7 →
       maskNumber number = number)
  ∧ maskNumber (str "12345678901") = str "123***8901".
Proof.
  split; [apply maskNumber_short|]. split; [|split; [|done]].
  - intros number H. rewrite maskNumber_long by done. split; [done|].
    rewrite !length_app, length_take, length_drop.
    change (length (str "***")) with 3. lia.
  - intros number He Hl. rewrite maskNumber_short; rewrite trim_id; done.
Qed.

Lemma maskNumber_masks_trimmed_witness :
  maskNumber (str " 12345 ") = str "12345"
  ∧ maskNumber (str " +447700900123 ") = str "+44***0123"
  ∧ maskNumber (str "1234567") = str "1234567".
Proof.
  destruct maskNumber_masks_trimmed as (Hshort & Hlong & Hsame & _).
  split; [|split].
  - apply (Hshort (str " 12345 ")). vm_compute. lia.
  - apply (Hlong (str " +447700900123 ")). vm_compute. lia.
  - apply (Hsame (str "1234567")); [reflexivity|vm_compute; lia].
Defined.

(** C8: on a cell without a digit and without a whitespace-separated token
    that upper-cases to MOBILE or FIXED, the country is the trimmed text of
    the cell, and extracting the country again changes nothing. *)
Theorem country_extraction_fixpoint (cell : jsstring) :
  Str.has_digit cell = false →
  Forall (fun t => CountrySpec.is_kind_word t = false)
    (CountrySpec.tokens cell) →
  country_of_cell cell = Str.trim cell
  ∧ extractCountryFromTermination (country_of_cell cell)
    = country_of_cell cell
  ∧ country_of_cell (country_of_cell cell) = country_of_cell cell.
Proof.
  intros Hd Hk.
  assert (country_of_cell cell = Str.trim cell) as E.
  { unfold country_of_cell, extractCountryFromTermination.
    rewrite collect_all.
    - rewrite app_nil_l.
      assert ((0 <? length (Str.split " " (Str.trim cell))) = true) as ->.
      { unfold Str.split.
        by destruct (pieces_inv (fun c => bool_decide (c = " "%char))
                       (Str.trim cell)) as (p & ps & ->). }
      apply (join_split " "%char).
    - apply Forall_forall. intros part Hin.
      unfold is_terminator. apply orb_false_intro.
      + change (CountrySpec.is_kind_word part = false).
        destruct (CountrySpec.is_kind_word part) eqn:Hw; [|done].
        pose proof (kind_word_token _ _ Hin Hw) as Ht.
        rewrite tokens_trim in Ht. rewrite Forall_forall in Hk.
        by rewrite (Hk _ Ht) in Hw.
      + destruct (Str.has_digit part) eqn:Hp; [|done].
        apply (pieces_digit _ _ _ Hin), has_digit_trim in Hp. congruence. }
  rewrite !E. unfold country_of_cell in *. by rewrite trim_idemp.
Qed.

Lemma country_extraction_fixpoint_witness :
  country_of_cell (str "  SOUTH AFRICA ") = str "SOUTH AFRICA".
Proof.
  apply (country_extraction_fixpoint (str "  SOUTH AFRICA ")).
  - reflexivity.
  - vm_compute. repeat constructor.
Defined.

(** C10: [maskNumber] trims its argument before anything else: masking an
    argument and masking its trimmed form give the same result, the result
    never starts or ends with whitespace, and an argument whose trimmed
    form has at most 7 characters comes back trimmed, which is not the
    argument when that has whitespace around it. *)
Theorem maskNumber_trims_argument :
  (∀ x : jsstring,
     maskNumber x = maskNumber (Str.trim x)
     ∧ Str.edge_space (maskNumber x) = false)
  ∧ (∀ x : jsstring,
       length (Str.trim x) ≤ 7 → maskNumber x = Str.trim x)
  ∧ (length (Str.trim (str " 123 ")) ≤ 7
     ∧ maskNumber (str " 123 ") = str "123"
     ∧ maskNumber (str " 123 ") ≠ str " 123 ").
Proof.
  split; [|split; [apply maskNumber_short|]].
  - intros x. split; [by rewrite maskNumber_trim|apply maskNumber_edges].
  - split; [vm_compute; lia|]. split; by vm_compute.
Qed.

Lemma maskNumber_trims_argument_witness :
  maskNumber (str "  4477 ") = str "4477".
Proof.
  apply (proj1 (proj2 maskNumber_trims_argument) (str "  4477 ")).
  vm_compute. lia.
Defined.

End TextClaims.

(** ** The audio pipeline *)
Section WorkerClaims.
Import Eff Worker.




(** C9: when the recording has been written and the conversion then
    fails, the worker returns with the WAV file still on disk and without
    having called [unlinkSync] at all: the [catch] block only logs.  More
    generally a worker deletes files exactly when no step before the
    deletions threw. *)
Theorem transcode_failure_leaves_wav
  (path_join : jsstring → jsstring → jsstring) (env : Env)
  (callData : Poller.CallData) (cookies : list Cookie)
  (notificationMessageId : option nat) (fs : gset jsstring)
  (url body : jsstring) :
  Poller.audioUrl callData = Some url →
  response env = Some body →
  write_ok env = true →
  ffmpeg_ok env = false →
  filePath_of path_join env (Poller.cliNumber callData)
    ∈ files (world (processCallWorker path_join env callData cookies
                      notificationMessageId {| files := fs |}))
  ∧ existsb is_unlink
      (effects (processCallWorker path_join env callData cookies
                  notificationMessageId {| files := fs |})) = false
  ∧ result (processCallWorker path_join env callData cookies
              notificationMessageId {| files := fs |}) = Ok tt
  ∧ (∀ env' callData' cookies' id' fs',
       existsb is_unlink
         (effects (processCallWorker path_join env' callData' cookies'
                     id' {| files := fs' |}))
       = reaches_cleanup env' callData').
Proof.
  intros Hu Hr Hw Hf.
  rewrite (worker_transcode_fails _ _ _ _ _ _ url body) by done.
  unfold world, effects, result. simpl.
  repeat split.
  - destruct (ffmpeg_left_output env); set_solver.
  - intros. apply worker_unlinks.
Qed.

Lemma transcode_failure_leaves_wav_witness :
  str "/app/call_1700000000000_CLI-1.wav"
    ∈ files (world (processCallWorker Samples.path_join
                      Samples.transcode_fails Samples.call [] (Some 7)
                      {| files := ∅ |})).
Proof.
  apply (transcode_failure_leaves_wav Samples.path_join
           Samples.transcode_fails Samples.call [] (Some 7) ∅
           (Poller.sound_url (str "did-7") (str "uuid-9")) (str "RIFF"));
    reflexivity.
Defined.

End WorkerClaims.

(** ** The login loop *)
Section LoginClaims.
Import Eff Login.



End LoginClaims.

(** * Further properties of the code *)

(** ** Country extraction and number masking *)
Section MoreSplitFacts.
Variable stop : ascii → bool.

Lemma pieces_free s p :
  p ∈ Str.pieces stop s → forallb (fun c => negb (stop c)) p = true.
Proof.
  revert p. induction s as [|c s IH]; intros p; simpl.
  - by intros ->%list_elem_of_singleton.
  - destruct (stop c) eqn:Hc.
    + intros [->|Hp]%elem_of_cons; [done|]. by apply IH.
    + destruct (pieces_inv stop s) as (q & qs & E). rewrite E in *.
      intros [->|Hp]%elem_of_cons.
      * simpl. rewrite Hc. simpl. apply IH. by left.
      * apply IH. by right.
Qed.

Lemma pieces_app_stop p c rest :
  forallb (fun c => negb (stop c)) p = true → stop c = true →
  Str.pieces stop (p ++ c :: rest) = p :: Str.pieces stop rest.
Proof.
  intros Hp Hc. induction p as [|a p IH]; simpl.
  - by rewrite Hc.
  - simpl in Hp. apply andb_prop in Hp as [Ha Hp].
    apply negb_true_iff in Ha. by rewrite Ha, IH.
Qed.
End MoreSplitFacts.

Lemma split_join sep (l : list jsstring) :
  l ≠ [] →
  Forall (fun p => forallb (fun c => negb (bool_decide (c = sep))) p = true) l →
  Str.split sep (Str.join [sep] l) = l.
Proof.
  intros Hne Hl. unfold Str.split.
  induction Hl as [|p l Hp Hl IH]; [done|].
  destruct l as [|q l].
  - simpl. by apply pieces_whole.
  - change (Str.join [sep] (p :: q :: l)) with (p ++ sep :: Str.join [sep] (q :: l)).
    rewrite pieces_app_stop; [|done|by apply bool_decide_eq_true].
    by rewrite IH.
Qed.

Lemma join_app_prefix sep (a r : list jsstring) :
  a ≠ [] → Str.join sep a `prefix_of` Str.join sep (a ++ r).
Proof.
  induction a as [|p a IH]; [done|]. intros _.
  destruct a as [|q a].
  - destruct r as [|x r]; simpl; [done|]. by apply prefix_app_r.
  - change (Str.join sep (p :: q :: a)) with (p ++ sep ++ Str.join sep (q :: a)).
    change (Str.join sep ((p :: q :: a) ++ r))
      with (p ++ sep ++ Str.join sep ((q :: a) ++ r)).
    apply prefix_app, prefix_app. by apply IH.
Qed.

Lemma extractCountry_cases text :
  extractCountryFromTermination text = text
  ∨ ∃ p a,
      extractCountryFromTermination text = Str.join [" "%char] (p :: a)
      ∧ Forall (fun p => is_terminator p = false) (p :: a)
      ∧ Forall (fun p => forallb
                  (fun c => negb (bool_decide (c = " "%char))) p = true)
          (p :: a).
Proof.
  unfold extractCountryFromTermination.
  destruct (collect_prefix (Str.split " " text) []) as (a & r & E & Ha & Hr & ->).
  rewrite app_nil_l. destruct a as [|p a]; [by left|].
  right. exists p, a. repeat split; [done|].
  apply Forall_forall. intros x Hx. apply (pieces_free _ text).
  fold (Str.split " " text). rewrite E. apply elem_of_app. by left.
Qed.

(** X1: extracting the country of an extracted country changes nothing,
    for every text. *)
Theorem extractCountry_idempotent (text : jsstring) :
  extractCountryFromTermination (extractCountryFromTermination text)
  = extractCountryFromTermination text.
Proof.
  destruct (extractCountry_cases text) as [H|(p & a & H & Ha & Hf)].
  - by rewrite !H.
  - rewrite H. unfold extractCountryFromTermination.
    rewrite (split_join " "%char (p :: a)) by done.
    by rewrite (collect_all _ _ Ha).
Qed.

(** X2: the country extracted from a text is a prefix of that text, and when
    it is not the whole text it contains no digit. *)
Theorem extractCountry_prefix (text : jsstring) :
  extractCountryFromTermination text `prefix_of` text
  ∧ (extractCountryFromTermination text ≠ text →
     Str.has_digit (extractCountryFromTermination text) = false).
Proof.
  unfold extractCountryFromTermination.
  destruct (collect_prefix (Str.split " " text) []) as (a & r & E & Ha & Hr & ->).
  rewrite app_nil_l. destruct a as [|p a]; [by split|].
  change (0 <? length (p :: a)) with true. cbv iota. split.
  - change (str " ") with [" "%char].
    pose proof (join_app_prefix [" "%char] (p :: a) r) as H.
    rewrite <- E, join_split in H. by apply H.
  - intros _. clear E Hr. 
    induction Ha as [|q l Hq Hl IH]; [done|].
    unfold is_terminator in Hq. apply orb_false_elim in Hq as [_ Hq].
    destruct l as [|q' l]; [done|].
    change (Str.join (str " ") (q :: q' :: l))
      with (q ++ " "%char :: Str.join (str " ") (q' :: l)).
    unfold Str.has_digit in *. rewrite existsb_app, Hq. simpl. by apply IH.
Qed.

Lemma extractCountry_prefix_witness :
  Str.has_digit
    (extractCountryFromTermination (str "UNITED KINGDOM MOBILE 07123"))
  = false.
Proof.
  apply (proj2 (extractCountry_prefix (str "UNITED KINGDOM MOBILE 07123"))).
  by vm_compute.
Defined.

(** X3: masking a masked number changes nothing, and a masked number has at
    most 10 characters. *)
Theorem maskNumber_idempotent (number : jsstring) :
  maskNumber (maskNumber number) = maskNumber number
  ∧ length (maskNumber number) ≤ 10.
Proof.
  destruct (Nat.le_gt_cases (length (Str.trim number)) 7) as [H|H].
  - rewrite (maskNumber_short number H). split; [|lia].
    rewrite maskNumber_trim. by apply maskNumber_short.
  - pose proof (maskNumber_edges number) as He.
    rewrite (maskNumber_long number H) in *.
    set (t := Str.trim number) in *.
    set (a := take 3 t) in *. set (b := drop (length t - 4) t) in *.
    assert (length a = 3) as La by (unfold a; rewrite length_take; lia).
    assert (length b = 4) as Lb by (unfold b; rewrite length_drop; lia).
    assert (length (a ++ str "***" ++ b) = 10) as Lr.
    { rewrite !length_app, La, Lb. done. }
    split; [|lia].
    rewrite maskNumber_long; rewrite (trim_id _ He); [|lia].
    rewrite Lr. f_equal.
    + by rewrite take_app_length'.
    + f_equal. change (10 - 4) with (3 + 3).
      rewrite <- drop_drop, drop_app_length' by done.
      by rewrite (drop_app_length' (str "***")).
Qed.

(** ** The play pattern *)
Section PatternExtras.
Lemma includes_middle p pre post : Str.includes p (pre ++ p ++ post) = true.
Proof.
  induction pre as [|c pre IH].
  - simpl app. destruct (p ++ post) eqn:E; simpl; rewrite <- ?E;
      by rewrite startsWith_refl.
  - simpl. rewrite IH. apply orb_true_r.
Qed.

(** X4: a handler that starts with a well-formed call of Play gives back
    exactly its two arguments, whichever quotes are used and whatever
    follows. *)
Theorem play_pattern_round_trip
  (q1 q2 q3 q4 : ascii) (did uuid ws post : jsstring) :
  Char.is_quote q1 = true → Char.is_quote q2 = true →
  Char.is_quote q3 = true → Char.is_quote q4 = true →
  did ≠ [] → Forall (fun c => Char.is_quote c = false) did →
  uuid ≠ [] → Forall (fun c => Char.is_quote c = false) uuid →
  Forall (fun c => Char.is_space c = true) ws →
  PlayPattern.exec (str "Play(" ++ [q1] ++ did ++ [q2] ++ str "," ++ ws
        ++ [q3] ++ uuid ++ [q4] ++ str ")" ++ post)
  = Some (did, uuid).
Proof.
  intros. rewrite exec_unfold. by rewrite match_here_complete.
Qed.

Lemma play_pattern_round_trip_witness :
  PlayPattern.exec (str "Play('4412', 'a1b2-c3');") = Some (str "4412", str "a1b2-c3").
Proof.
  apply (play_pattern_round_trip "'" "'" "'" "'" (str "4412") (str "a1b2-c3")
           (str " ") (str ";")); try reflexivity; try done;
    repeat constructor.
Defined.

(** X5: the two groups of a match are never empty and contain no quote, and a
    text that matches contains [Play(] and is at least 11 characters longer
    than the two groups together. *)
Theorem play_pattern_groups (s did uuid : jsstring) :
  PlayPattern.exec s = Some (did, uuid) →
  did ≠ [] ∧ uuid ≠ []
  ∧ Forall (fun c => Char.is_quote c = false) did
  ∧ Forall (fun c => Char.is_quote c = false) uuid
  ∧ Str.includes (str "Play(") s = true
  ∧ length did + length uuid + 11 ≤ length s.
Proof.
  intros H%exec_sound. destruct H as [pre q1 d q2 ws q3 u q4 post].
  repeat split; try done.
  - apply includes_middle.
  - rewrite !length_app. simpl. lia.
Qed.

Lemma play_pattern_groups_witness :
  Str.includes (str "Play(") (str "x=Play('1','2')") = true.
Proof.
  apply (play_pattern_groups (str "x=Play('1','2')") (str "1") (str "2")).
  reflexivity.
Defined.

End PatternExtras.

(** ** The poller *)
Section MorePollerFacts.
Import Poller Observe.

Lemma exec_nonempty s did uuid :
  PlayPattern.exec s = Some (did, uuid) → did ≠ [] ∧ uuid ≠ [].
Proof. intros H%exec_sound. by destruct H. Qed.

Lemma row_callback_shape raises row st :
  (row_callback raises row st).1 = st
  ∨ ∃ c evs,
      (c ∉ processedCalls st)
      ∧ (row_callback raises row st).1
        = {| processedCalls := {[c]} ∪ processedCalls st;
             trace := trace st ++ Marked c :: evs |}
      ∧ dispatched c evs.
Proof.
  unfold row_callback.
  destruct (2 <? length (columns row)); [|by left].
  set (cd := callData_of row).
  destruct (seen st (cliNumber cd)) eqn:Hs; [by left|].
  apply seen_false in Hs. right. exists (cliNumber cd).
  destruct (_ && _).
  - destruct (PlayPattern.exec _) as [[did uuid]|] eqn:E.
    + apply exec_nonempty in E as (Hd & Hu).
      destruct raises; eexists; (split; [done|]); unfold emit, mark; simpl;
        rewrite <- ?app_assoc; (split; [reflexivity|]).
      * by eapply dispatched_thrown.
      * by eapply dispatched_detected.
    + exists []. repeat split; [done|constructor].
  - destruct (is_FAILED _).
    + exists [FailedNotification cd].
      destruct raises; unfold emit, mark; simpl; rewrite <- ?app_assoc;
        (repeat split; [done|]); by constructor.
    + exists []. repeat split; [done|constructor].
Qed.

(** A property of the state kept by every callback holds along a run. *)
Lemma run_from_ind (P : State → Prop) t raises pages st :
  (∀ st c evs, P st → c ∉ processedCalls st → dispatched c evs →
     P {| processedCalls := {[c]} ∪ processedCalls st;
          trace := trace st ++ Marked c :: evs |}) →
  P st → P (run_from t raises pages st).
Proof.
  intros Hstep.
  assert (∀ raises row st, P st → P (row_callback raises row st).1) as Hrow.
  { intros r row s Hs.
    destruct (row_callback_shape r row s) as [->|(c & evs & Hc & -> & Hd)];
      [done|by apply Hstep]. }
  assert (∀ raises i rows st, P st → P (each raises i rows st).1) as Heach.
  { intros r i rows. revert i. induction rows as [|row rows IH]; intros i s Hs;
      [done|].
    simpl. pose proof (Hrow (r i) row s Hs) as H.
    destruct (row_callback (r i) row s) as [s' []]; [by apply IH|done]. }
  revert t st. induction pages as [|page pages IH]; intros t s Hs; [done|].
  simpl. apply IH. destruct page; [by apply Heach|done].
Qed.

End MorePollerFacts.

Section PollerExtras.
Import Poller Observe.


(** X8: in every run the deduplication store holds exactly the calls marked
    in the trace, and every event of the trace is about a marked call. *)
Theorem store_is_marked_calls
  (raises : nat → nat → bool) (pages : list (option (list Row)))
  (c : jsstring) :
  (c ∈ processedCalls (run raises pages init)
   ↔ Marked c ∈ trace (run raises pages init))
  ∧ (∀ e, e ∈ trace (run raises pages init) →
          Marked (event_cli e) ∈ trace (run raises pages init)).
Proof.
  unfold run.
  pose proof (run_from_ind (fun st =>
    ∀ c, c ∈ processedCalls st ↔ Marked c ∈ trace st) 0 raises pages init)
    as H.
  assert (∀ c, c ∈ processedCalls (run_from 0 raises pages init)
               ↔ Marked c ∈ trace (run_from 0 raises pages init)) as Hiff.
  { apply H.
    - intros st c' evs IH Hc Hd c0. simpl.
      rewrite elem_of_union, elem_of_singleton, IH, elem_of_app, elem_of_cons.
      split; [naive_solver|].
      intros [?|[?|Hin]]; [auto|left; congruence|].
      destruct Hd; set_solver.
    - intros c0. simpl. set_solver. }
  split; [apply Hiff|].
  intros e He. apply Hiff.
  by apply (inv_known _ (Inv_run_from 0 raises pages init Inv_init)).
Qed.

(** Rows already in the store are passed over. *)
Lemma each_seen raises i rows st :
  (∀ row, row ∈ rows → 2 < length (columns row) →
          cliNumber (callData_of row) ∈ processedCalls st) →
  each raises i rows st = (st, Normal).
Proof.
  revert i. induction rows as [|row rows IH]; intros i H; [done|].
  simpl. unfold row_callback.
  destruct (Nat.ltb_spec 2 (length (columns row))) as [Hl|Hl].
  - unfold seen. rewrite bool_decide_eq_true_2 by (apply H; [by left|done]).
    apply IH. intros r Hr. apply H. by right.
  - apply IH. intros r Hr. apply H. by right.
Qed.

Lemma row_callback_marks raises row st :
  2 < length (columns row) →
  cliNumber (callData_of row) ∈ processedCalls (row_callback raises row st).1.
Proof.
  intros Hl. unfold row_callback.
  destruct (Nat.ltb_spec 2 (length (columns row))); [|lia].
  destruct (seen st _) eqn:Hs.
  - by apply bool_decide_eq_true in Hs.
  - assert (∀ P : State, cliNumber (callData_of row) ∈ processedCalls (mark (cliNumber (callData_of row)) st))
      as Hm by (intros _; simpl; set_solver).
    destruct (_ && _);
      [destruct (PlayPattern.exec _) as [[??]|]|destruct (is_FAILED _)];
      try destruct raises; simpl; set_solver.
Qed.

Lemma each_marks raises i rows st :
  (each raises i rows st).2 = Normal →
  ∀ row, row ∈ rows → 2 < length (columns row) →
         cliNumber (callData_of row) ∈ processedCalls (each raises i rows st).1.
Proof.
  revert i st. induction rows as [|row rows IH]; intros i st Hn r Hr Hl.
  - by apply elem_of_nil in Hr.
  - simpl in *.
    pose proof (row_callback_marks (raises i) row st) as Hm.
    destruct (row_callback (raises i) row st) as [st' []] eqn:E; [|done].
    apply elem_of_cons in Hr as [->|Hr].
    + apply (each_subseteq raises (S i) rows st'). by apply Hm.
    + by apply IH.
Qed.

(** X6: scanning again a page whose scan completed changes nothing, whatever
    the dispatching calls would do the second time. *)
Theorem rescan_is_noop
  (raises raises' : nat → bool) (rows : list Row) (st : State) :
  (each raises 0 rows st).2 = Normal →
  tick raises' (Some rows) (tick raises (Some rows) st)
  = tick raises (Some rows) st.
Proof.
  intros Hn. simpl. rewrite each_seen; [done|].
  intros row Hr Hl. by apply each_marks.
Qed.

Lemma rescan_is_noop_witness :
  tick (fun _ => true) (Some [Samples.live_row; Samples.odd_row])
    (tick (fun _ => false) (Some [Samples.live_row; Samples.odd_row]) init)
  = tick (fun _ => false) (Some [Samples.live_row; Samples.odd_row]) init.
Proof.
  apply (rescan_is_noop (fun _ => false) (fun _ => true)
           [Samples.live_row; Samples.odd_row] init).
  reflexivity.
Defined.

(** X9: a row not seen before, not FAILED, whose first play control calls
    Play with two quoted arguments, is marked, notified and scheduled with
    the sound address made of these two arguments. *)
Theorem detected_row_dispatch
  (row : Row) (st : State) (others : list jsstring)
  (q1 q2 q3 q4 : ascii) (did uuid ws post : jsstring) :
  2 < length (columns row) →
  seen st (cliNumber (callData_of row)) = false →
  is_FAILED (callStatus_of row) = false →
  playButtons row
    = (str "Play(" ++ [q1] ++ did ++ [q2] ++ str "," ++ ws
       ++ [q3] ++ uuid ++ [q4] ++ str ")" ++ post) :: others →
  Char.is_quote q1 = true → Char.is_quote q2 = true →
  Char.is_quote q3 = true → Char.is_quote q4 = true →
  did ≠ [] → Forall (fun c => Char.is_quote c = false) did →
  uuid ≠ [] → Forall (fun c => Char.is_quote c = false) uuid →
  Forall (fun c => Char.is_space c = true) ws →
  row_callback false row st
  = ({| processedCalls := {[cliNumber (callData_of row)]} ∪ processedCalls st;
        trace := trace st
          ++ [Marked (cliNumber (callData_of row));
              InstantNotification
                (with_audioUrl
                   (str "https://www.orangecarrier.com/live/calls/sound?did="
                    ++ did ++ str "&uuid=" ++ uuid) (callData_of row));
              WorkerScheduled
                (with_audioUrl
                   (str "https://www.orangecarrier.com/live/calls/sound?did="
                    ++ did ++ str "&uuid=" ++ uuid) (callData_of row))] |},
     Normal).
Proof.
  intros Hl Hs Hf Hp ?????????.
  assert (PlayPattern.exec
            (str "Play(" ++ [q1] ++ did ++ [q2] ++ str "," ++ ws
             ++ [q3] ++ uuid ++ [q4] ++ str ")" ++ post) = Some (did, uuid))
    as Hexec by (rewrite exec_unfold; by rewrite match_here_complete).
  revert Hp Hexec. generalize (str "Play(" ++ [q1] ++ did ++ [q2] ++ str ","
    ++ ws ++ [q3] ++ uuid ++ [q4] ++ str ")" ++ post).
  intros onclickAttr Hp Hexec. unfold row_callback.
  destruct (Nat.ltb_spec 2 (length (columns row))); [|lia].
  rewrite Hs, Hp, Hf. simpl. rewrite Hexec.
  unfold emit, mark, sound_url. simpl. by rewrite <- !app_assoc.
Qed.


Lemma store_is_marked_calls_witness :
  Marked (str "CLI-1")
    ∈ trace (run (fun _ _ => false) [Some [Samples.live_row]] init).
Proof.
  apply (proj1 (store_is_marked_calls (fun _ _ => false)
                  [Some [Samples.live_row]] (str "CLI-1"))).
  apply (bool_decide_unpack _). by vm_compute.
Defined.

Lemma detected_row_dispatch_witness :
  (row_callback false Samples.live_row init).2 = Normal.
Proof.
  rewrite (detected_row_dispatch Samples.live_row init []
             "'" "'" "'" "'" (str "did-7") (str "uuid-9") []
             (str "; return false;")); try reflexivity; try done.
  - vm_compute. lia.
  - repeat constructor.
  - repeat constructor.
Defined.

End PollerExtras.


(** ** The audio pipeline *)
Section WorkerExtras.
Import Eff Worker Observe.
Variable path_join : jsstring → jsstring → jsstring.
Variable env : Env.
Variable callData : Poller.CallData.
Variable cookies : list Cookie.
Variable notificationMessageId : option nat.

Local Abbreviation cli := (Poller.cliNumber callData).
Local Abbreviation wav := (filePath_of path_join env (Poller.cliNumber callData)).
Local Abbreviation mp3 :=
  (filePathMp3_of path_join env (Poller.cliNumber callData)).
Local Abbreviation worker :=
  (processCallWorker path_join env callData cookies notificationMessageId).

(** The six courses of a worker, by the first step that throws. *)
Ltac worker_course fs :=
  destruct (Poller.audioUrl callData) as [url|] eqn:Hu;
    [|rewrite (worker_no_url path_join env callData cookies
                 notificationMessageId {| files := fs |} Hu)];
  [destruct (response env) as [body|] eqn:Hr;
    [|rewrite (worker_fetch_fails path_join env callData cookies
                 notificationMessageId {| files := fs |} url Hu Hr)];
   [destruct (write_ok env) eqn:Hw;
     [|rewrite (worker_write_fails path_join env callData cookies
                  notificationMessageId {| files := fs |} url body Hu Hr Hw)];
    [destruct (ffmpeg_ok env) eqn:Hf;
      [|rewrite (worker_transcode_fails path_join env callData cookies
                   notificationMessageId {| files := fs |} url body
                   Hu Hr Hw Hf)];
     [destruct (caption env) as [c|] eqn:Hc;
       [rewrite (worker_reaches_cleanup path_join env callData cookies
                   notificationMessageId fs url body c Hu Hr Hw Hf Hc)
       |rewrite (worker_caption_fails path_join env callData cookies
                   notificationMessageId {| files := fs |} url body
                   Hu Hr Hw Hf Hc)]
     |]
    |]
   |]
  |].

Lemma worker_other_files fs :
  files (world (worker {| files := fs |})) ∖ {[wav]} ∖ {[mp3]}
  = fs ∖ {[wav]} ∖ {[mp3]}.
Proof.
  worker_course fs; unfold world; simpl; try set_solver.
  destruct (ffmpeg_left_output env); set_solver.
Qed.

Lemma worker_counts fs :
  count_step 1 (effects (worker {| files := fs |})) ≤ 2
  ∧ count_step 2 (effects (worker {| files := fs |})) ≤ 1
  ∧ count_step 3 (effects (worker {| files := fs |})) ≤ 1
  ∧ count_step 4 (effects (worker {| files := fs |})) ≤ 1
  ∧ count_step 5 (effects (worker {| files := fs |})) ≤ 2.
Proof.
  worker_course fs; unfold effects, count_step, send_effects, retract_effects;
    simpl; try (repeat split; lia).
  destruct (sendAudio_ok env), (truthy notificationMessageId),
    (deleteMessage_ok env), (decide (mp3 = wav)); simpl; repeat split; lia.
Qed.

Lemma worker_retracts fs m :
  DeleteMessage m ∈ effects (worker {| files := fs |})
  ↔ reaches_cleanup env callData = true
    ∧ truthy notificationMessageId = Some m.
Proof.
  unfold reaches_cleanup.
  worker_course fs; unfold effects, send_effects, retract_effects; simpl;
    try (split; [intros H; repeat (apply elem_of_cons in H as [H|H]; [done|]);
                 by apply elem_of_nil in H
                |by intros [? _]]).
  destruct (truthy notificationMessageId) as [m'|], (sendAudio_ok env),
    (deleteMessage_ok env), (decide (mp3 = wav));
    rewrite list_elem_of_In; simpl; (split;
      [intros H; repeat (destruct H as [H|H]; simplify_eq); done
      |intros [_ H]; simplify_eq; auto 10]).
Qed.
End WorkerExtras.


Section ReplaceFacts.
Variables pat rep : jsstring.

Lemma startsWith_length p s : Str.startsWith p s = true → length p ≤ length s.
Proof. intros H%startsWith_app. rewrite H, length_app. lia. Qed.

Lemma includes_length p s :
  Str.includes p s = true → length p ≤ length s.
Proof.
  induction s as [|c s IH]; simpl.
  - rewrite orb_false_r. intros H%startsWith_length. done.
  - intros [H%startsWith_length|H%IH]%orb_prop; simpl in *; lia.
Qed.

Lemma includes_unfold p s :
  Str.includes p s
  = Str.startsWith p s
    || match s with [] => false | _ :: s' => Str.includes p s' end.
Proof. by destruct s. Qed.

Lemma startsWith_app_l p s r :
  length p ≤ length s → Str.startsWith p (s ++ r) = Str.startsWith p s.
Proof.
  revert s. induction p as [|a p IH]; intros [|b s]; simpl; try done; [lia|].
  intros H. rewrite IH by lia. done.
Qed.

Lemma replace_unfold s :
  Str.replace pat rep s
  = if Str.startsWith pat s then rep ++ drop (length pat) s
    else match s with [] => [] | c :: s' => c :: Str.replace pat rep s' end.
Proof. by destruct s. Qed.

(** Without an occurrence nothing is replaced. *)
Lemma replace_none s :
  Str.includes pat s = false → Str.replace pat rep s = s.
Proof.
  induction s as [|c s IH]; rewrite includes_unfold, replace_unfold;
    intros [-> H]%orb_false_elim; [done|]. by rewrite IH.
Qed.

(** Only the first occurrence is replaced: what follows a text that
    contains the pattern is left alone. *)
Lemma replace_app s r :
  Str.includes pat s = true →
  Str.replace pat rep (s ++ r) = Str.replace pat rep s ++ r.
Proof.
  induction s as [|c s IH]; intros H.
  - rewrite includes_unfold, orb_false_r in H.
    assert (pat = []) as Hp.
    { apply startsWith_length in H. apply nil_length_inv. simpl in H. lia. }
    rewrite (replace_unfold ([] ++ r)), (replace_unfold []), Hp. simpl.
    by rewrite !drop_0, app_nil_r.
  - pose proof (includes_length _ _ H) as Hlen.
    rewrite (replace_unfold ((c :: s) ++ r)), (replace_unfold (c :: s)).
    rewrite startsWith_app_l by done.
    destruct (Str.startsWith pat (c :: s)) eqn:E.
    + rewrite <- app_assoc. f_equal. by rewrite drop_app_le.
    + rewrite includes_unfold, E in H. simpl in *. by rewrite IH.
Qed.

Lemma replace_length s :
  length pat = length rep → length (Str.replace pat rep s) = length s.
Proof.
  intros Hl. induction s as [|c s IH]; rewrite replace_unfold.
  - destruct (Str.startsWith pat []) eqn:E; [|done].
    apply startsWith_length in E. rewrite length_app, length_drop.
    simpl in *. lia.
  - destruct (Str.startsWith pat (c :: s)) eqn:E.
    + apply startsWith_length in E. rewrite length_app, length_drop. lia.
    + simpl. by rewrite IH.
Qed.

Lemma replace_changes s :
  length pat = length rep → pat ≠ rep → Str.includes pat s = true →
  Str.replace pat rep s ≠ s.
Proof.
  intros Hl Hne. induction s as [|c s IH]; rewrite includes_unfold, replace_unfold.
  - rewrite orb_false_r. intros E. exfalso. apply Hne.
    apply startsWith_length in E. simpl in E.
    rewrite (nil_length_inv pat), (nil_length_inv rep); [done|lia..].
  - destruct (Str.startsWith pat (c :: s)) eqn:E.
    + intros _. apply startsWith_app in E. intros H. rewrite E in H at 2.
      apply app_inj_1 in H as [H _]; [|done]. done.
    + simpl. intros H Heq. injection Heq as Heq. by apply IH.
Qed.
End ReplaceFacts.


Lemma replace_first pat rep a b :
  pat ≠ [] →
  Str.includes pat (a ++ take (length pat - 1) pat) = false →
  Str.replace pat rep (a ++ pat ++ b) = a ++ rep ++ b.
Proof.
  intros Hne. induction a as [|c a IH]; intros H.
  - simpl app. rewrite replace_unfold, startsWith_refl.
    by rewrite drop_app_length.
  - rewrite includes_unfold in H. apply orb_false_elim in H as [Hs Hi].
    rewrite replace_unfold.
    assert (Str.startsWith pat ((c :: a) ++ pat ++ b) = false) as ->.
    { assert (pat ++ b
              = take (length pat - 1) pat ++ drop (length pat - 1) pat ++ b)
        as -> by (by rewrite app_assoc, take_drop).
      rewrite app_assoc, startsWith_app_l; [done|].
      rewrite length_app, length_take. simpl.
      destruct pat; [done|]. simpl. lia. }
    simpl. by rewrite IH.
Qed.


Section WorkerExtraClaims.
Import Eff Worker Observe.



(** X11: a worker never retries: the first step (the fetch and the write of
    the raw file) makes at most two calls, the conversion, the sending and
    the retraction are each asked for at most once, and the deletion of a
    file is called at most twice. *)
Theorem worker_never_retries
  (path_join : jsstring → jsstring → jsstring) (env : Env)
  (callData : Poller.CallData) (cookies : list Cookie)
  (notificationMessageId : option nat) (fs : gset jsstring) :
  count_step 1 (effects (processCallWorker path_join env callData cookies
                           notificationMessageId {| files := fs |})) ≤ 2
  ∧ count_step 2 (effects (processCallWorker path_join env callData cookies
                             notificationMessageId {| files := fs |})) ≤ 1
  ∧ count_step 3 (effects (processCallWorker path_join env callData cookies
                             notificationMessageId {| files := fs |})) ≤ 1
  ∧ count_step 4 (effects (processCallWorker path_join env callData cookies
                             notificationMessageId {| files := fs |})) ≤ 1
  ∧ count_step 5 (effects (processCallWorker path_join env callData cookies
                             notificationMessageId {| files := fs |})) ≤ 2.
Proof. apply worker_counts. Qed.

(** X12: a worker asks for the deletion of the message [m] exactly when it
    reaches the deletions and was given [m] as a truthy handle: never for a
    null handle or the handle 0, and never for another message. *)
Theorem worker_retracts_its_alert
  (path_join : jsstring → jsstring → jsstring) (env : Env)
  (callData : Poller.CallData) (cookies : list Cookie)
  (notificationMessageId : option nat) (fs : gset jsstring) (m : nat) :
  (DeleteMessage m
     ∈ effects (processCallWorker path_join env callData cookies
                  notificationMessageId {| files := fs |})
   ↔ reaches_cleanup env callData = true
     ∧ truthy notificationMessageId = Some m)
  ∧ truthy None = None ∧ truthy (Some 0) = None.
Proof. split; [apply worker_retracts|done]. Qed.

Lemma worker_retracts_its_alert_witness :
  DeleteMessage 7
    ∈ effects (processCallWorker Samples.path_join Samples.delivery_fails
                 Samples.call [] (Some 7) {| files := ∅ |}).
Proof.
  apply (proj1 (worker_retracts_its_alert Samples.path_join
                  Samples.delivery_fails Samples.call [] (Some 7) ∅ 7)).
  split; reflexivity.
Defined.


(** X14: when the path of the raw file contains [.wav], the path of the
    converted file is another path of the same length. *)
Theorem mp3_path_differs
  (path_join : jsstring → jsstring → jsstring) (env : Env) (cli : jsstring) :
  Str.includes (str ".wav") (filePath_of path_join env cli) = true →
  filePathMp3_of path_join env cli ≠ filePath_of path_join env cli
  ∧ length (filePathMp3_of path_join env cli)
    = length (filePath_of path_join env cli).
Proof.
  intros H. unfold filePathMp3_of. split.
  - by apply replace_changes.
  - by apply replace_length.
Qed.

Lemma mp3_path_differs_witness :
  filePathMp3_of Samples.path_join Samples.transcode_fails (str "CLI-1")
  ≠ filePath_of Samples.path_join Samples.transcode_fails (str "CLI-1").
Proof.
  apply (mp3_path_differs Samples.path_join Samples.transcode_fails
           (str "CLI-1")).
  reflexivity.
Defined.

(** X15: only the first [.wav] of the path is replaced.  When the directory
    of the process contains [.wav] and the join is a plain concatenation,
    the converted file is named inside a directory renamed to [.mp3] and
    keeps the extension [.wav]. *)
Theorem mp3_path_in_wav_directory
  (path_join : jsstring → jsstring → jsstring) (env : Env) (cli : jsstring) :
  path_join (dirname env) (fileName_of env cli)
    = dirname env ++ str "/" ++ fileName_of env cli →
  Str.includes (str ".wav") (dirname env) = true →
  filePathMp3_of path_join env cli
  = Str.replace (str ".wav") (str ".mp3") (dirname env)
    ++ str "/call_" ++ str (pretty (now env)) ++ str "_" ++ cli ++ str ".wav".
Proof.
  intros Hj Hd. unfold filePathMp3_of, filePath_of. rewrite Hj.
  rewrite replace_app by done. reflexivity.
Qed.

Lemma mp3_path_in_wav_directory_witness :
  filePathMp3_of Samples.path_join wav_directory (str "CLI-1")
  = str "/srv/calls.mp3/call_1700000000000_CLI-1.wav".
Proof.
  apply (mp3_path_in_wav_directory Samples.path_join wav_directory
           (str "CLI-1")); reflexivity.
Defined.

(** X16: when the join is a plain concatenation and [.wav] does not occur in
    the path before its extension, the converted file has the path of the
    raw file with the extension [.mp3]. *)
Theorem mp3_path_simple
  (path_join : jsstring → jsstring → jsstring) (env : Env) (cli : jsstring) :
  path_join (dirname env) (fileName_of env cli)
    = dirname env ++ str "/" ++ fileName_of env cli →
  Str.includes (str ".wav")
    (dirname env ++ str "/call_" ++ str (pretty (now env)) ++ str "_" ++ cli
     ++ str ".wa") = false →
  filePathMp3_of path_join env cli
  = dirname env ++ str "/call_" ++ str (pretty (now env)) ++ str "_" ++ cli
    ++ str ".mp3".
Proof.
  intros Hj Hi. unfold filePathMp3_of, filePath_of. rewrite Hj.
  set (base := dirname env ++ str "/call_" ++ str (pretty (now env))
               ++ str "_" ++ cli).
  assert (dirname env ++ str "/" ++ fileName_of env cli
          = base ++ str ".wav" ++ []) as ->.
  { unfold base, fileName_of. by rewrite <- !app_assoc. }
  rewrite replace_first; [|done|].
  - unfold base. by rewrite <- !app_assoc.
  - unfold base. by rewrite <- !app_assoc.
Qed.

Lemma mp3_path_simple_witness :
  filePathMp3_of Samples.path_join Samples.transcode_fails (str "CLI-1")
  = str "/app/call_1700000000000_CLI-1.mp3".
Proof.
  apply (mp3_path_simple Samples.path_join Samples.transcode_fails
           (str "CLI-1")); reflexivity.
Defined.

End WorkerExtraClaims.

(** ** The login loop *)
Section MoreLoginFacts.
Import Eff Login.

(** What a [try] block that returns has seen and done. *)
Lemma attempt_body_returns e m s :
  result (attempt_body e m) = Ok s →
  effects (attempt_body e m) = [Launched (next_browser m)]
  ∧ world (attempt_body e m)
    = {| next_browser := S (next_browser m);
         open_browsers := {[next_browser m]} ∪ open_browsers m;
         browser := Some (next_browser m) |}
  ∧ session_browser s = next_browser m
  ∧ launch_ok e = true ∧ open_ok e = true
  ∧ (∃ i j, scan_inputs 0 (inputs e) None None = (Some i, Some j))
  ∧ typing_ok e = true
  ∧ (submit_control e = true
     ∨ ∃ k, sign_in_buttons e = Some k ∧ 0 < k)
  ∧ click_ok e = true
  ∧ Str.includes (str "orangecarrier.com") (currentUrl e) = true
  ∧ (∃ content,
       pageContent e = Some content
       ∧ (Str.includes (str "Dashboard") content = true
          ∨ Str.includes (str "Account Code") content = true))
  ∧ live_cookies e = Some (session_cookies s).
Proof.
  unfold attempt_body, launch, guard, bind, tell, get, put, ret, throw,
    effects, world, result.
  destruct (launch_ok e); simpl; [|done].
  destruct (open_ok e); simpl; [|done].
  destruct (scan_inputs 0 (inputs e) None None) as [[i|] [j|]]; simpl;
    try done.
  destruct (typing_ok e); simpl; [|done].
  assert (∀ P Q : Prop, P → Q → P ∧ Q) as conj' by auto.
  destruct (submit_control e) eqn:Hsub; simpl.
  - destruct (click_ok e); simpl; [|done].
    destruct (Str.includes _ (currentUrl e)); simpl; [|done].
    destruct (pageContent e) as [content|]; simpl; [|done].
    destruct (_ || _) eqn:E; simpl; [|done]. apply orb_prop in E.
    destruct (live_cookies e) as [ck|]; simpl; [|done].
    intros [= <-]; simpl; repeat split; eauto 10.
  - destruct (sign_in_buttons e) as [k|]; simpl; [|done].
    destruct (Nat.ltb_spec 0 k); simpl; [|done].
    destruct (click_ok e); simpl; [|done].
    destruct (Str.includes _ (currentUrl e)); simpl; [|done].
    destruct (pageContent e) as [content|]; simpl; [|done].
    destruct (_ || _) eqn:E; simpl; [|done]. apply orb_prop in E.
    destruct (live_cookies e) as [ck|]; simpl; [|done].
    intros [= <-]; simpl; repeat split; eauto 10.
Qed.

Lemma login_loop_returns fuel n env a m s :
  a < n → result (attempt_body (env a) m) = Ok s →
  login_loop (S fuel) n env a m
  = (effects (attempt_body (env a) m), world (attempt_body (env a) m),
     Ok (Some (Some s))).
Proof.
  intros Ha Hr. cbn [login_loop].
  destruct (Nat.ltb_spec a n); [|lia].
  unfold bind at 1, try_catch, bind at 1.
  destruct (attempt_body (env a) m) as [[es w] r].
  unfold result, effects, world in *. simpl in *. subst r. simpl.
  by rewrite !app_nil_r.
Qed.

(** The outcome of the loop from the attempt [a] on. *)
Lemma login_loop_outcome n env fuel a m used :
  n - a < fuel → well_formed m → browser m = None →
  (∀ b, b ∈ used → b < next_browser m) →
  ∃ x,
    result (login_loop fuel n env a m) = Ok (Some x)
    ∧ length (launched (effects (login_loop fuel n env a m))) ≤ n - a
    ∧ match x with
      | None =>
          open_browsers (world (login_loop fuel n env a m)) = open_browsers m
          ∧ browser (world (login_loop fuel n env a m)) = None
          ∧ length (List.filter is_failure
                      (effects (login_loop fuel n env a m))) = n - a
          ∧ disciplined (effects (login_loop fuel n env a m)) ∅ used
      | Some s =>
          open_browsers (world (login_loop fuel n env a m))
            = {[session_browser s]} ∪ open_browsers m
          ∧ (session_browser s ∉ open_browsers m)
          ∧ browser (world (login_loop fuel n env a m))
            = Some (session_browser s)
          ∧ length (List.filter is_failure
                      (effects (login_loop fuel n env a m))) < n - a
          ∧ ∃ i m', a ≤ i < n ∧ result (attempt_body (env i) m') = Ok s
      end.
Proof.
  revert a m used. induction fuel as [|fuel IH]; intros a m used Hf Hwf Hb Hu;
    [lia|].
  destruct (Nat.lt_ge_cases a n) as [Ha|Ha].
  2:{ exists None. cbn [login_loop]. destruct (Nat.ltb_spec a n); [lia|].
      unfold ret, result, effects, world. simpl.
      replace (n - a) with 0 by lia. repeat split; done. }
  destruct (result (attempt_body (env a) m)) as [s|msg] eqn:Hr.
  - rewrite (login_loop_returns fuel n env a m s Ha Hr).
    destruct (attempt_body_returns _ _ _ Hr) as (-> & -> & Hs & _).
    exists (Some s). unfold result, effects, world. simpl. rewrite Hs.
    repeat split; try done; try lia.
    + intros H%Hwf. lia.
    + exists a, m. split; [lia|done].
  - destruct (login_loop_failed_turn fuel n env a m msg Ha Hb Hr)
      as (es & m' & T & ->).
    destruct (failed_turn_machine _ _ _ _ _ Hwf Hb T) as (Hwf' & Hb' & Ho' & Hn').
    destruct (Nat.leb_spec n (S a)) as [Hle|Hgt].
    + exists None. unfold result, effects, world. simpl.
      replace (n - a) with 1 by lia.
      destruct T; simpl; repeat split; try done; try lia; try set_solver.
      intros H%Hu. lia.
    + assert (∃ used', (∀ b, b ∈ used' → b < next_browser m')
              ∧ ∀ rest, disciplined rest ∅ used' →
                        disciplined (es ++ Retrying :: rest) ∅ used)
        as (used' & Hu' & Hdis).
      { destruct T.
        - exists used. split; [done|]. by intros rest.
        - exists (next_browser m :: used). split.
          + simpl. intros b [->|Hin%Hu]%elem_of_cons; lia.
          + intros rest Hd. simpl. repeat split; [|].
            * intros H%Hu. lia.
            * by replace ({[next_browser m]} ∖ {[next_browser m]} : gset nat)
                with (∅ : gset nat) by set_solver. }
      destruct (IH (S a) m' used') as (x & Hres & Hlaunch & Hx);
        [lia|done|done|done|].
      exists x. unfold result, effects, world in *. simpl.
      destruct (login_loop fuel n env (S a) m') as [[es' w'] r']. simpl in *.
      split; [done|].
      assert (length (launched (es ++ Retrying :: es'))
              ≤ 1 + length (launched es')) as Hl.
      { destruct T; simpl; lia. }
      assert (length (List.filter is_failure (es ++ Retrying :: es'))
              = 1 + length (List.filter is_failure es')) as Hfl.
      { destruct T; simpl; lia. }
      split; [lia|].
      destruct x as [s|].
      * destruct Hx as (Hopen & Hnot & Hbr & Hcnt & i & m0 & Hi & Hok).
        rewrite Hfl. rewrite Ho' in Hopen, Hnot.
        repeat split; try done; [lia|].
        exists i, m0. split; [lia|done].
      * destruct Hx as (Hopen & Hbr & Hcnt & Hd).
        rewrite Hfl, Hcnt. rewrite Ho' in Hopen.
        repeat split; try done; [lia|]. by apply Hdis.
Qed.

(** The loop over the inputs finds the first input of each kind. *)
Lemma scan_inputs_find i inputs emailField passField :
  scan_inputs i inputs emailField passField
  = (match emailField with
     | Some k => Some k
     | None => (fun r => i + r.1)
                 <$> list_find (fun a => looks_like_email a = true) inputs
     end,
     match passField with
     | Some k => Some k
     | None => (fun r => i + r.1)
                 <$> list_find (fun a => is_password a = true) inputs
     end).
Proof.
  revert i emailField passField.
  induction inputs as [|attrs inputs IH]; intros i ef pf.
  - by destruct ef, pf.
  - cbn [scan_inputs]. rewrite IH. f_equal.
    + destruct ef as [k|].
      * by rewrite bool_decide_eq_true_2 by eauto.
      * rewrite bool_decide_eq_false_2 by (by intros [??]).
        cbn [negb andb list_find].
        destruct (looks_like_email attrs) eqn:E.
        -- rewrite decide_True by done. simpl. f_equal. lia.
        -- rewrite decide_False by done.
           rewrite <- option_fmap_compose.
           apply option_fmap_ext. intros [??]. simpl. lia.
    + destruct pf as [k|].
      * by rewrite bool_decide_eq_true_2 by eauto.
      * rewrite bool_decide_eq_false_2 by (by intros [??]).
        cbn [negb andb list_find].
        destruct (is_password attrs) eqn:E.
        -- rewrite decide_True by done. simpl. f_equal. lia.
        -- rewrite decide_False by done.
           rewrite <- option_fmap_compose.
           apply option_fmap_ext. intros [??]. simpl. lia.
Qed.

End MoreLoginFacts.


Section LoginExtras.
Import Eff Login Observe.



(** X19: a session is returned only from an attempt on a page with an input
    that looks like the e-mail field and a password input, a submit control
    or a Sign In button, an address on the domain of the dashboard after
    the submit and a content with one of the two markers; its cookies are
    those read after the navigation to the live calls. *)
Theorem login_session_conditions
  (n : nat) (env : nat → AttemptEnv) (m : Machine) (s : Session) :
  well_formed m →
  result (loginToDashboard n env m) = Ok (Some (Some s)) →
  ∃ i, i < n
    ∧ launch_ok (env i) = true
    ∧ (∃ a, a ∈ inputs (env i) ∧ looks_like_email a = true)
    ∧ (∃ a, a ∈ inputs (env i) ∧ is_password a = true)
    ∧ (submit_control (env i) = true
       ∨ ∃ k, sign_in_buttons (env i) = Some k ∧ 0 < k)
    ∧ Str.includes (str "orangecarrier.com") (currentUrl (env i)) = true
    ∧ (∃ content,
         pageContent (env i) = Some content
         ∧ (Str.includes (str "Dashboard") content = true
            ∨ Str.includes (str "Account Code") content = true))
    ∧ live_cookies (env i) = Some (session_cookies s).
Proof.
  intros Hwf Hres. unfold loginToDashboard in Hres.
  destruct (login_loop_outcome n env (S n) 0
              {| next_browser := next_browser m;
                 open_browsers := open_browsers m; browser := None |} [])
    as (x & Hr & Hl & Hx); [lia|done|done|by intros ? ?%elem_of_nil|].
  rewrite Hr in Hres. injection Hres as ->.
  destruct Hx as (_ & _ & _ & _ & i & m' & Hi & Hok).
  apply attempt_body_returns in Hok
    as (_ & _ & _ & Hlaunch & _ & (ie & ip & Hscan) & _ & Hbtn & _ & Hurl
        & Hcontent & Hck).
  exists i. split; [lia|]. split; [done|].
  rewrite scan_inputs_find in Hscan. injection Hscan as He Hp.
  apply fmap_Some in He as ([k a] & He & _).
  apply fmap_Some in Hp as ([k' a'] & Hp & _).
  apply list_find_Some in He as (He1 & He2 & _).
  apply list_find_Some in Hp as (Hp1 & Hp2 & _).
  split; [exists a; split; [by eapply list_elem_of_lookup_2|done]|].
  split; [exists a'; split; [by eapply list_elem_of_lookup_2|done]|].
  done.
Qed.

(** X20: the loop over the inputs returns the position of the first input
    that looks like the e-mail field and the position of the first
    password input, each independently of the other. *)
Theorem scan_inputs_first_match (inputs : list InputAttrs) :
  scan_inputs 0 inputs None None
  = (fst <$> list_find (fun a => looks_like_email a = true) inputs,
     fst <$> list_find (fun a => is_password a = true) inputs).
Proof. rewrite scan_inputs_find. done. Qed.



Lemma login_session_conditions_witness :
  ∃ i, i < 2
    ∧ launch_ok ((fun i => if i is 0 then Samples.no_fields else good_page) i)
      = true.
Proof.
  destruct (login_session_conditions 2
              (fun i => if i is 0 then Samples.no_fields else good_page)
              start {| session_browser := 1; session_cookies := [] |})
    as (i & Hi & Hl & _).
  - intros b Hb. by apply not_elem_of_empty in Hb.
  - reflexivity.
  - by exists i.
Defined.

End LoginExtras.
